(** * Message targeting, dispatch and scheduling: a shallow embedding

    The development follows [server/services/messageService.js]
    ([sendMessageById], [startScheduler]), [server/services/delivery.js]
    ([sendEmail]), the Mongoose schemas of [Message], [UserGroup] and
    [ActivityLog], and the [POST /messages] handler of
    [server/routes/admin_v2.js].

    Asynchronous JavaScript is modelled sequentially: an [await]ed call is
    a step of a state-and-exception monad over the persistent stores, and a
    rejected promise is a thrown exception carrying [err.message]. *)

From Stdlib Require Import ZArith Lia.
From stdpp Require Import gmap strings list fin_maps pretty.

Local Open Scope Z_scope.
Set Warnings "-clear-no-such-hyp".

(** ** Data model *)

(** [channel: { type: String, enum: ['email','in-app','sms'] }] *)
Inductive Channel := Email | InApp | Sms.

(** [status: { type: String, enum: ['draft','scheduled','sent','failed'] }] *)
Inductive Status := Draft | Scheduled | Sent | Failed.

#[global] Instance Channel_eq_dec : EqDecision Channel.
Proof. solve_decision. Defined.
#[global] Instance Status_eq_dec : EqDecision Status.
Proof. solve_decision. Defined.

(** [deliveryReport: { type: Object, default: {} }]; the only key the
    service writes is [recipientsCount]. *)
Record DeliveryReport := { recipientsCount : option nat }.

(** A [Message] document. Instants are milliseconds since the epoch. The
    [_id] of a document is the key under which the store holds it. *)
Record Message := {
  title : string;
  body : string;
  targetGroup : option string;
  recipients : list string;
  channel : Channel;
  status : Status;
  scheduledAt : option Z;
  sentAt : option Z;
  deliveryReport : DeliveryReport
}.

(** Values a key of the open [filters] object may hold; [FDoc] is an
    object or an array (an operator expression such as [{ $ne: ... }]),
    given by its JSON text. *)
Inductive FilterValue :=
| FStr (s : string)
| FBool (b : bool)
| FNum (n : Z)
| FNull
| FDoc (json : string).

#[global] Instance FilterValue_eq_dec : EqDecision FilterValue.
Proof. solve_decision. Defined.

Record GroupMember := { member_username : string; joinedAt : Z }.

(** A [UserGroup] document; [filters] is a JS object used as a map. The
    fields are those the service and the routes read or write; the
    [createdAt] and [updatedAt] stamps and the version key that Mongoose
    maintains on every save are left out, so equality of two groups is
    equality of these four fields. *)
Record UserGroup := {
  name : string;
  group_isActive : bool;
  filters : gmap string FilterValue;
  members : list GroupMember
}.

(** Modelled from the spec: the [AdminUser] schema ([models/AdminUser.js])
    is not part of the sources at hand. A directory entry is "a user record
    with at least username, email, role, isActive"; [email] may be
    missing on a document. *)
Record AdminUser := {
  username : string;
  email : option string;
  role : string;
  isActive : bool
}.

(** An [ActivityLog] document ([time] and [meta] are not written by the
    service). *)
Record ActivityLog := {
  user : string;
  action : string;
  details : string;
  ip : string
}.

(** The object handed to [transporter.sendMail] by [sendEmail]. *)
Record MailOptions := {
  mail_from : string;
  mail_to : string;
  mail_subject : string;
  mail_html : string
}.

(** The argument object of [delivery.sendEmail]. *)
Record EmailArgs := {
  to : list string;
  subject : string;
  html : string
}.

(** The value [sendMessageById] resolves to. *)
Record SendResult := {
  res_recipientsCount : nat;
  messageId : string
}.

(** The persistent stores, the record of the calls made to the mail
    transport, the environment and the wall clock. [query_test u k v] says
    whether the directory document [u] satisfies the condition [{k: v}] of
    a query, as the database decides it once Mongoose has cast [v] to the
    type of the path [k]. *)
Record World := {
  messages : gmap string Message;
  usergroups : gmap string UserGroup;
  adminusers : list AdminUser;
  query_test : AdminUser → string → FilterValue → bool;
  activitylogs : list ActivityLog;
  sentmail : list MailOptions;
  SMTP_FROM : option string;
  clock : Z
}.

(** The two shapes of directory query the service issues. *)
Inductive DirQuery :=
| ByFields (query : gmap string FilterValue)
| ByUsernames (usernames : list string).

(** Which collaborator calls reject, and with which [err.message].
    [castObjectId_error s] is the CastError Mongoose raises for a string
    it cannot cast to an ObjectId, and [None] for a well-formed id. *)
Record Faults := {
  findMessage_error : option string;
  findGroup_error : option string;
  findUsers_error : DirQuery → option string;
  sendMail_error : MailOptions → option string;
  log_error : ActivityLog → option string;
  save_error : Message → option string;
  castObjectId_error : string → option string
}.

Definition no_faults : Faults := {|
  findMessage_error := None;
  findGroup_error := None;
  findUsers_error := λ _, None;
  sendMail_error := λ _, None;
  log_error := λ _, None;
  save_error := λ _, None;
  castObjectId_error := λ _, None
|}.

(** ** The monad of awaited calls *)

Inductive Outcome (A : Type) :=
| Return (a : A)
| Throw (err : string).
Arguments Return {A} a.
Arguments Throw {A} err.

Definition Async (A : Type) : Type := World → Outcome A * World.

#[global] Instance Async_ret : MRet Async := λ A a w, (Return a, w).

#[global] Instance Async_bind : MBind Async := λ A B k c w,
  match c w with
  | (Return a, w') => k a w'
  | (Throw e, w') => (Throw e, w')
  end.

Definition throw {A} (e : string) : Async A := λ w, (Throw e, w).

(** [try { c } catch (err) { h err }] *)
Definition try_catch {A} (c : Async A) (h : string → Async A) : Async A := λ w,
  match c w with
  | (Return a, w') => (Return a, w')
  | (Throw e, w') => h e w'
  end.

(** A call that rejects when the fault oracle says so. *)
Definition guard_fault (e : option string) : Async unit :=
  match e with
  | Some err => throw err
  | None => mret ()
  end.

Definition get_world : Async World := λ w, (Return w, w).

Definition modify (f : World → World) : Async unit := λ w, (Return (), f w).

Definition push_log (entry : ActivityLog) (w : World) : World :=
  {| messages := messages w; usergroups := usergroups w;
     adminusers := adminusers w; query_test := query_test w;
     activitylogs := activitylogs w ++ [entry];
     sentmail := sentmail w; SMTP_FROM := SMTP_FROM w; clock := clock w |}.

Definition put_message (id : string) (msg : Message) (w : World) : World :=
  {| messages := <[id := msg]> (messages w);
     usergroups := usergroups w; adminusers := adminusers w; query_test := query_test w;
     activitylogs := activitylogs w;
     sentmail := sentmail w; SMTP_FROM := SMTP_FROM w; clock := clock w |}.

Definition push_mail (mo : MailOptions) (w : World) : World :=
  {| messages := messages w; usergroups := usergroups w;
     adminusers := adminusers w; query_test := query_test w; activitylogs := activitylogs w;
     sentmail := sentmail w ++ [mo];
     SMTP_FROM := SMTP_FROM w; clock := clock w |}.

(** ** Collaborators *)

(** [new Date()] *)
Definition new_Date : Async Z := λ w, (Return (clock w), w).

(** Mongoose's [populate('targetGroup')]: the reference is replaced by the
    group document when it exists and by [null] otherwise. The populated
    document's [_id] is all the service reads from it. *)
Definition populate (w : World) (msg : Message) : option string :=
  tg ← targetGroup msg; _ ← usergroups w !! tg; Some tg.

(** [Message.findById(id).populate('targetGroup')]: the stored document
    together with its populated group reference. For a document that has a
    [targetGroup], [populate] is a query of the group store, which may
    reject. Documents are stored under their ObjectId, so an id the store
    holds is well formed; for an id it does not hold, the cast decides
    between [null] and a CastError. *)
Definition Message_findById (F : Faults) (id : string)
  : Async (option (Message * option string)) :=
  guard_fault (findMessage_error F);;
  w ← get_world;
  match messages w !! id with
  | Some msg =>
      match targetGroup msg with
      | Some _ => guard_fault (findGroup_error F)
      | None => mret ()
      end;;
      mret (Some (msg, populate w msg))
  | None =>
      guard_fault (castObjectId_error F id);;
      mret None
  end.

(** [UserGroup.findById(id)] *)
Definition UserGroup_findById (F : Faults) (id : string) : Async (option UserGroup) :=
  guard_fault (findGroup_error F);;
  w ← get_world;
  mret (usergroups w !! id).

(** A [query_test] for a directory whose queries carry values of the
    paths' own types, so that no cast is involved: equality with the
    document's field. A path the documents do not have is matched by
    [null] only. The example installation uses it. *)
Definition field_matches (u : AdminUser) (k : string) (v : FilterValue) : bool :=
  if decide (k = "role") then bool_decide (v = FStr (role u))
  else if decide (k = "isActive") then bool_decide (v = FBool (isActive u))
  else if decide (k = "username") then bool_decide (v = FStr (username u))
  else bool_decide (v = FNull).

(** A document matches a query object when it satisfies the condition of
    each of its fields. *)
Definition matches (test : AdminUser → string → FilterValue → bool)
    (query : gmap string FilterValue) (u : AdminUser) : bool :=
  forallb (λ kv, test u kv.1 kv.2) (map_to_list query).

(** [AdminUser.find(query, projection)] for the two query shapes. *)
Definition select_users (test : AdminUser → string → FilterValue → bool)
    (q : DirQuery) (users : list AdminUser) : list AdminUser :=
  match q with
  | ByFields query => filter (λ u, matches test query u = true) users
  | ByUsernames names => filter (λ u, username u ∈ names) users
  end.

Definition AdminUser_find (F : Faults) (q : DirQuery) : Async (list AdminUser) :=
  guard_fault (findUsers_error F q);;
  w ← get_world;
  mret (select_users (query_test w) q (adminusers w)).

(** [ActivityLog.create(entry)] *)
Definition ActivityLog_create (F : Faults) (entry : ActivityLog) : Async unit :=
  guard_fault (log_error F entry);;
  modify (push_log entry).

(** [msg.save()] for the document whose [_id] is [id]. *)
Definition save (F : Faults) (id : string) (msg : Message) : Async unit :=
  guard_fault (save_error F msg);;
  modify (put_message id msg).

(** JavaScript truthiness of a string-valued option ([undefined] and the
    empty string are falsy). *)
Definition truthy_string (s : option string) : option string :=
  match s with
  | Some "" => None
  | other => other
  end.

(** [Array.prototype.join(',')] *)
Fixpoint join (l : list string) : string :=
  match l with
  | [] => ""
  | [x] => x
  | x :: rest => x +:+ "," +:+ join rest
  end.

(** [transporter.sendMail(mailOptions)]: the call is recorded, and it may
    reject. *)
Definition transporter_sendMail (F : Faults) (mo : MailOptions) : Async unit :=
  modify (push_mail mo);;
  guard_fault (sendMail_error F mo).

(** [mailOptions] as built by [sendEmail] in [delivery.js]. *)
Definition mailOptions (from : option string) (args : EmailArgs) : MailOptions :=
  {| mail_from := default "no-reply@example.com" (truthy_string from);
     mail_to := join (to args);
     mail_subject := subject args;
     mail_html := html args |}.

(** [delivery.sendEmail({ to, subject, html })]; the transporter is always
    constructed, so the [!transporter] branch is never taken. *)
Definition sendEmail (F : Faults) (args : EmailArgs) : Async unit :=
  w ← get_world;
  transporter_sendMail F (mailOptions (SMTP_FROM w) args).

(** ** Audience resolution (lines 12-36 of the service) *)

(** [Array.from(new Set(l))]: first occurrences, in insertion order. *)
Fixpoint Set_from (seen l : list string) : list string :=
  match l with
  | [] => []
  | x :: rest =>
      if decide (x ∈ seen) then Set_from seen rest
      else x :: Set_from (x :: seen) rest
  end.

Definition Array_from_Set (l : list string) : list string := Set_from [] l.

Definition allowed : list string := ["role"; "isActive"; "username"].

(** The [query] object built from the entries of [filters]. *)
Definition project_allowed (fs : gmap string FilterValue) : gmap string FilterValue :=
  filter (λ kv, kv.1 ∈ allowed) fs.

(** [Object.keys(o).length] as a truth value. *)
Definition has_keys (o : gmap string FilterValue) : bool :=
  bool_decide (o ≠ ∅).

Definition resolve (F : Faults) (msg : Message) (populated : option string)
  : Async (list string) :=
  let recipients0 := recipients msg in
  recipients1 ←
    match populated with
    | Some gid =>
        group ← UserGroup_findById F gid;
        match group with
        | Some group =>
            let recipients1 := recipients0 ++ (member_username <$> members group) in
            if has_keys (filters group) then
              let query := project_allowed (filters group) in
              if has_keys query then
                matched ← AdminUser_find F (ByFields query);
                mret (recipients1 ++ (username <$> matched))
              else mret recipients1
            else mret recipients1
        | None => mret recipients0
        end
    | None => mret recipients0
    end;
  mret (Array_from_Set recipients1).

(** ** The orchestrator: [sendMessageById]

    The document loaded by [findById(id)] has [_id = id]; the model writes
    [id] where the source reads [msg._id]. *)

Definition dispatch_email (F : Faults) (msg : Message) (audience : list string)
  : Async unit :=
  emailsFromUsers ← AdminUser_find F (ByUsernames audience);
  let emails := omap (λ u, truthy_string (email u)) emailsFromUsers in
  match emails with
  | [] => mret ()
  | _ => sendEmail F {| to := emails; subject := title msg;
                        html := "<p>" +:+ body msg +:+ "</p>" |}
  end.

Definition mark_sent (msg : Message) (now : Z) (count : nat) : Message :=
  {| title := title msg; body := body msg;
     targetGroup := targetGroup msg; recipients := recipients msg;
     channel := channel msg;
     status := Sent;
     scheduledAt := scheduledAt msg;
     sentAt := Some now;
     deliveryReport := {| recipientsCount := Some count |} |}.

(** The audit entry written when the email block throws (line 50). *)
Definition send_error_entry (actor ip id err : string) : ActivityLog :=
  {| user := actor; action := "Send Message Error";
     details := "Email send failed for " +:+ id +:+ ": " +:+ err;
     ip := ip |}.

(** The audit entry of a completed send (line 59). *)
Definition send_entry (actor ip : string) (msg : Message) (count : nat) : ActivityLog :=
  {| user := actor; action := "Send Message";
     details := "Sent message " +:+ title msg +:+ " to "
                +:+ pretty count +:+ " recipients";
     ip := ip |}.

(** Lines 38-52: the channel-specific handler. *)
Definition dispatch (F : Faults) (actor ip id : string) (msg : Message)
    (audience : list string) : Async unit :=
  if decide (channel msg = Email) then
    try_catch (dispatch_email F msg audience)
      (λ err, ActivityLog_create F (send_error_entry actor ip id err))
  else mret ().

(** Lines 54-60: status update, persistence, audit record, result. *)
Definition finish (F : Faults) (actor ip id : string) (msg : Message)
    (audience : list string) : Async (option SendResult) :=
  now ← new_Date;
  save F id (mark_sent msg now (length audience));;
  ActivityLog_create F (send_entry actor ip msg (length audience));;
  mret (Some {| res_recipientsCount := length audience; messageId := id |}).

Definition sendMessageById (F : Faults) (id actor ip : string)
  : Async (option SendResult) :=
  found ← Message_findById F id;
  match found with
  | None => mret None
  | Some (msg, populated) =>
      audience ← resolve F msg populated;
      dispatch F actor ip id msg audience;;
      finish F actor ip id msg audience
  end.

(** ** The scheduler tick: the callback [startScheduler] hands to [setInterval] *)

(** The filter [{ status: 'scheduled', scheduledAt: { $lte: now } }]; a
    document without [scheduledAt] does not match [$lte]. *)
Definition is_due (now : Z) (msg : Message) : bool :=
  bool_decide (status msg = Scheduled) &&
  match scheduledAt msg with
  | Some t => bool_decide (t ≤ now)
  | None => false
  end.

(** [Message.find(filter)] for the scheduler's filter. *)
Definition Message_find_due (F : Faults) (now : Z) : Async (list (string * Message)) :=
  guard_fault (findMessage_error F);;
  w ← get_world;
  mret (filter (λ kv, is_due now kv.2 = true) (map_to_list (messages w))).

(** [for (const x of l) { body(x) }] *)
Fixpoint for_of {A} (l : list A) (body : A → Async unit) : Async unit :=
  match l with
  | [] => mret ()
  | x :: rest => body x;; for_of rest body
  end.

(** One tick. [F0] rules the tick's own query, [Fs id] the collaborators
    during the send of message [id]. *)
Definition scheduler_tick (F0 : Faults) (Fs : string → Faults) : Async unit :=
  try_catch
    (now ← new_Date;
     due ← Message_find_due F0 now;
     for_of due (λ kv,
       try_catch
         (sendMessageById (Fs kv.1) kv.1 "system" "scheduler";; mret ())
         (λ _, mret ())))
    (λ _, mret ()).

(** ** The operator-facing create operation: [POST /messages] *)

(** JSON values a request body may carry in [scheduledAt]. Numbers are
    whole milliseconds. *)
Inductive Json :=
| JUndefined
| JNull
| JBool (b : bool)
| JNum (n : Z)
| JStr (s : string).

(** JavaScript truthiness. *)
Definition truthy (v : Json) : bool :=
  match v with
  | JUndefined | JNull => false
  | JBool b => b
  | JNum n => bool_decide (n ≠ 0)
  | JStr s => bool_decide (s ≠ "")
  end.

(** ECMAScript's TimeClip: instants beyond 8.64e15 ms are invalid. *)
Definition TimeClip (t : Z) : option Z :=
  if decide (Z.abs t ≤ 8640000000000000) then Some t else None.

Record CreateBody := {
  req_title : option string;
  req_body : option string;
  req_channel : option Channel;
  req_targetGroupId : option string;
  req_recipients : option (list string);
  req_scheduledAt : Json
}.

Inductive Response :=
| Created (id : string) (msg : Message)
| BadRequest (message : string)
| ServerError (message : string).

(** [logActivity] of the router: a failing audit sink is only warned about. *)
Definition logActivity (F : Faults) (entry : ActivityLog) : Async unit :=
  try_catch (ActivityLog_create F entry) (λ _, mret ()).

Section Create.

(** [Date.parse] of the JavaScript engine; [None] is [NaN]. *)
Variable Date_parse : string → option Z.

(** Mongoose's cast of the [scheduledAt] path; [None] is a [CastError],
    which makes [save] reject. *)
Variable castDate : Json → option (option Z).

(** [new Date(v).getTime()], [None] for an invalid date. *)
Definition Date_of (v : Json) : option Z :=
  match v with
  | JUndefined => None
  | JNull => Some 0
  | JBool b => Some (if b then 1 else 0)
  | JNum n => TimeClip n
  | JStr s => Date_parse s
  end.

(** [new Message({ ... })] with the schema defaults. *)
Definition new_Message (req : CreateBody) (stored : option Z) : Message :=
  {| title := default "" (req_title req);
     body := default "" (req_body req);
     targetGroup := req_targetGroupId req;
     recipients := default [] (req_recipients req);
     channel := default InApp (req_channel req);
     status := Draft;
     scheduledAt := stored;
     sentAt := None;
     deliveryReport := {| recipientsCount := None |} |}.

Definition set_status (st : Status) (msg : Message) : Message :=
  {| title := title msg; body := body msg;
     targetGroup := targetGroup msg; recipients := recipients msg;
     channel := channel msg;
     status := st;
     scheduledAt := scheduledAt msg;
     sentAt := sentAt msg;
     deliveryReport := deliveryReport msg |}.

(** The handler; [new_id] is the [_id] Mongoose generates for the new
    document and [req_user] is [req.user?.username]. A [scheduledAt] or a
    [targetGroupId] that Mongoose cannot cast makes [msg.save()] reject
    with a validation error. *)
Definition post_messages (F : Faults) (req_user : option string) (req_ip : string)
    (new_id : string) (req : CreateBody) : Async Response :=
  if bool_decide (truthy_string (req_title req) = None)
     || bool_decide (truthy_string (req_body req) = None)
  then mret (BadRequest "Title and body required")
  else
    try_catch
      (let msg := new_Message req (default None (castDate (req_scheduledAt req))) in
       msg ←
         (if truthy (req_scheduledAt req) then
            match Date_of (req_scheduledAt req) with
            | Some scheduledDate =>
                now ← new_Date;
                if decide (now < scheduledDate)
                then mret (set_status Scheduled msg)
                else mret msg
            | None => mret msg
            end
          else mret msg);
       guard_fault (match castDate (req_scheduledAt req) with
                    | None => Some "Cast to date failed"
                    | Some _ => None
                    end);;
       guard_fault (match req_targetGroupId req with
                    | Some targetGroupId => castObjectId_error F targetGroupId
                    | None => None
                    end);;
       save F new_id msg;;
       logActivity F
         {| user := default "admin" (truthy_string req_user);
            action := "Create Message";
            details := "Created message " +:+ default "" (req_title req);
            ip := req_ip |};;
       mret (Created new_id msg))
      (λ _, mret (ServerError "Failed to create message")).

End Create.

(** ** Notions used in the statements *)

(** What the group contributes: manual members, then directory matches of
    the projected filter when that projection has a key. *)
Definition group_part (test : AdminUser → string → FilterValue → bool)
    (users : list AdminUser) (g : UserGroup) : list string :=
  (member_username <$> members g) ++
  (if has_keys (project_allowed (filters g))
   then username <$> select_users test (ByFields (project_allowed (filters g))) users
   else []).

(** The audience of a message, read off the stores: what [resolve] returns
    when the group store and the directory answer ([resolve_ok]). *)
Definition audience (w : World) (msg : Message) : list string :=
  Array_from_Set
    (recipients msg ++
     match populate w msg ≫= (usergroups w !!.) with
     | Some g => group_part (query_test w) (adminusers w) g
     | None => []
     end).

(** The addresses the email block collects for an audience. *)
Definition emails_of (w : World) (a : list string) : list string :=
  omap (λ u, truthy_string (email u))
    (select_users (query_test w) (ByUsernames a) (adminusers w)).

(** The mail the email block hands to the transport. *)
Definition message_mail (w : World) (msg : Message) (emails : list string) : MailOptions :=
  mailOptions (SMTP_FROM w)
    {| to := emails; subject := title msg; html := "<p>" +:+ body msg +:+ "</p>" |}.

(** The transport calls a send makes: one mail to the collected addresses
    for the email channel when there is at least one, none otherwise. *)
Definition transport_calls (w : World) (msg : Message) (a : list string) : list MailOptions :=
  if decide (channel msg = Email) then
    match emails_of w a with
    | [] => []
    | es => [mailOptions (SMTP_FROM w)
               {| to := es; subject := title msg; html := "<p>" +:+ body msg +:+ "</p>" |}]
    end
  else [].

(** The world the email block leaves behind. *)
Definition after_dispatch (F : Faults) (actor ip id : string) (msg : Message)
    (a : list string) (w : World) : World :=
  if decide (channel msg = Email) then
    match emails_of w a with
    | [] => w
    | _ =>
        let mo := message_mail w msg (emails_of w a) in
        match sendMail_error F mo with
        | None => push_mail mo w
        | Some err => push_log (send_error_entry actor ip id err) (push_mail mo w)
        end
    end
  else w.

(** Every collaborator but the mail transport answers. *)
Definition reliable (F : Faults) : Prop :=
  findMessage_error F = None ∧
  findGroup_error F = None ∧
  (∀ q, findUsers_error F q = None) ∧
  (∀ e, log_error F e = None) ∧
  (∀ m, save_error F m = None).

(** From [w] to [w'] only message [id], the audit log and the record of
    transport calls may have changed, and the log has only grown. *)
Record touches_only (id : string) (w w' : World) : Prop := {
  same_groups : usergroups w' = usergroups w;
  same_users : adminusers w' = adminusers w;
  same_test : query_test w' = query_test w;
  same_clock : clock w' = clock w;
  same_env : SMTP_FROM w' = SMTP_FROM w;
  same_others : ∀ j, j ≠ id → messages w' !! j = messages w !! j;
  log_grows : activitylogs w `prefix_of` activitylogs w'
}.

(** Every run of [c] stays within [touches_only id]. *)
Definition within (id : string) {A} (c : Async A) : Prop :=
  ∀ w, touches_only id w (c w).2.

(** The body of the scheduler's [for] loop. *)
Definition send_quietly (Fs : string → Faults) (kv : string * Message) : Async unit :=
  try_catch
    (sendMessageById (Fs kv.1) kv.1 "system" "scheduler";; mret ())
    (λ _, mret ()).

(** The status the handler's [if (scheduledAt) { ... }] block decides on. *)
Definition initial_status (Date_parse : string → option Z) (v : Json) (now : Z) : Status :=
  if truthy v then
    match Date_of Date_parse v with
    | Some t => if decide (now < t) then Scheduled else Draft
    | None => Draft
    end
  else Draft.

(** Replace the [filters] of a group, and a group of the store. *)
Definition with_filters (fs : gmap string FilterValue) (g : UserGroup) : UserGroup :=
  {| name := name g; group_isActive := group_isActive g;
     filters := fs; members := members g |}.

Definition with_group (gid : string) (g : UserGroup) (w : World) : World :=
  {| messages := messages w;
     usergroups := <[gid := g]> (usergroups w);
     adminusers := adminusers w; query_test := query_test w; activitylogs := activitylogs w;
     sentmail := sentmail w; SMTP_FROM := SMTP_FROM w; clock := clock w |}.

(** ** A concrete installation, for examples *)

(** Directory entries: alice has an address, bob has none. *)
Definition alice : AdminUser :=
  {| username := "alice"; email := Some "alice@example.com"; role := "user"; isActive := true |}.
Definition bob : AdminUser :=
  {| username := "bob"; email := None; role := "moderator"; isActive := true |}.
Definition carol : AdminUser :=
  {| username := "carol"; email := Some "carol@example.com"; role := "admin"; isActive := true |}.

(** Manual member alice and the filter [{ role: "moderator" }]. *)
Definition moderators : UserGroup :=
  {| name := "G"; group_isActive := true;
     filters := {[ "role" := FStr "moderator" ]};
     members := [ {| member_username := "alice"; joinedAt := 0 |} ] |}.

(** A freshly created group: no member and the default [filters: {}]. *)
Definition empty_group : UserGroup :=
  {| name := "E"; group_isActive := true; filters := ∅; members := [] |}.

(** Messages of the example store. *)
Definition to_moderators : Message :=
  {| title := "Hello"; body := "World"; targetGroup := Some "g1";
     recipients := ["dave"]; channel := Email; status := Draft;
     scheduledAt := None; sentAt := None;
     deliveryReport := {| recipientsCount := None |} |}.

Definition to_empty_group : Message :=
  {| title := "Hello"; body := "World"; targetGroup := Some "g0";
     recipients := ["dave"]; channel := InApp; status := Draft;
     scheduledAt := None; sentAt := None;
     deliveryReport := {| recipientsCount := None |} |}.

Definition to_deleted_group : Message :=
  {| title := "Hello"; body := "World"; targetGroup := Some "gone";
     recipients := ["dave"; "alice"; "dave"]; channel := Email; status := Draft;
     scheduledAt := None; sentAt := None;
     deliveryReport := {| recipientsCount := None |} |}.

(** Already sent at instant 5 to seven recipients. *)
Definition already_sent : Message :=
  {| title := "Old"; body := "News"; targetGroup := None;
     recipients := ["alice"; "bob"; "alice"]; channel := Email; status := Sent;
     scheduledAt := None; sentAt := Some 5;
     deliveryReport := {| recipientsCount := Some 7%nat |} |}.

Definition only_bob : Message :=
  {| title := "Ping"; body := "Pong"; targetGroup := None;
     recipients := ["bob"]; channel := Email; status := Draft;
     scheduledAt := None; sentAt := None;
     deliveryReport := {| recipientsCount := None |} |}.

Definition due_message : Message :=
  {| title := "Due"; body := "Now"; targetGroup := None;
     recipients := ["alice"]; channel := InApp; status := Scheduled;
     scheduledAt := Some 900; sentAt := None;
     deliveryReport := {| recipientsCount := None |} |}.

Definition overdue_message : Message :=
  {| title := "Overdue"; body := "Long ago"; targetGroup := None;
     recipients := ["carol"]; channel := Email; status := Scheduled;
     scheduledAt := Some 100; sentAt := None;
     deliveryReport := {| recipientsCount := None |} |}.

Definition future_message : Message :=
  {| title := "Later"; body := "Then"; targetGroup := None;
     recipients := ["alice"]; channel := InApp; status := Scheduled;
     scheduledAt := Some 2000; sentAt := None;
     deliveryReport := {| recipientsCount := None |} |}.

Definition office : World :=
  {| messages := list_to_map
       [("m0", overdue_message); ("m1", to_moderators); ("m2", to_empty_group); ("m3", to_deleted_group);
        ("m4", already_sent); ("m5", only_bob); ("m6", due_message);
        ("m7", future_message)];
     usergroups := list_to_map [("g1", moderators); ("g0", empty_group)];
     adminusers := [alice; bob; carol];
     query_test := field_matches;
     activitylogs := [];
     sentmail := [];
     SMTP_FROM := None;
     clock := 1000 |}.

(** The mail relay refuses every connection. *)
Definition relay_down : Faults :=
  {| findMessage_error := None; findGroup_error := None;
     findUsers_error := λ _, None;
     sendMail_error := λ _, Some "ECONNREFUSED";
     log_error := λ _, None;
     save_error := λ _, None;
     castObjectId_error := λ _, None |}.

(** The audit collection rejects every write. *)
Definition audit_down : Faults :=
  {| findMessage_error := None; findGroup_error := None;
     findUsers_error := λ _, None;
     sendMail_error := λ _, None;
     log_error := λ _, Some "activitylogs unavailable";
     save_error := λ _, None;
     castObjectId_error := λ _, None |}.

(** The message store rejects every write. *)
Definition save_down : Faults :=
  {| findMessage_error := None; findGroup_error := None;
     findUsers_error := λ _, None;
     sendMail_error := λ _, None;
     log_error := λ _, None;
     save_error := λ _, Some "messages unavailable";
     castObjectId_error := λ _, None |}.

(** Faults for a tick: the send of message "m6" proceeds undisturbed while
    no other message can be saved. *)
Definition save_down_except_m6 (id : string) : Faults :=
  if decide (id = "m6") then no_faults else save_down.

(** An engine that parses one ISO instant, for examples. *)
Definition parse_2030 (s : string) : option Z :=
  if decide (s = "2030-01-01T00:00:00.000Z") then Some 1893456000000 else None.

(** A cast that stores what [new Date] yields and rejects what it cannot
    read, for examples. *)
Definition cast_by_Date (v : Json) : option (option Z) :=
  match v with
  | JUndefined | JNull => Some None
  | _ => Some <$> Date_of parse_2030 v
  end.

(** A request to schedule a message for 2030. *)
Definition scheduled_request : CreateBody :=
  {| req_title := Some "Maintenance"; req_body := Some "Tonight";
     req_channel := Some Email; req_targetGroupId := None;
     req_recipients := Some ["alice"];
     req_scheduledAt := JStr "2030-01-01T00:00:00.000Z" |}.

(** ** The scheduler's timer: [startScheduler] and [stopScheduler] *)

(** The runtime's interval timers (the active handles with their periods
    and the next handle [setInterval] hands out) and the module variable
    [schedulerTimer]. A handle is a Timeout object, hence truthy; [None] is
    [null]. *)
Record Timers := {
  intervals : gmap nat Z;
  next_handle : nat;
  schedulerTimer : option nat
}.

(** The delay a timer really gets: Node replaces a delay below 1 or above
    2147483647 by 1. *)
Definition node_delay (delay : Z) : Z :=
  if decide (1 ≤ delay ≤ 2147483647) then delay else 1.

Definition setInterval (delay : Z) (t : Timers) : nat * Timers :=
  (next_handle t,
   {| intervals := <[next_handle t := node_delay delay]> (intervals t);
      next_handle := S (next_handle t);
      schedulerTimer := schedulerTimer t |}).

Definition clearInterval (h : nat) (t : Timers) : Timers :=
  {| intervals := delete h (intervals t);
     next_handle := next_handle t;
     schedulerTimer := schedulerTimer t |}.

Definition set_schedulerTimer (h : option nat) (t : Timers) : Timers :=
  {| intervals := intervals t; next_handle := next_handle t; schedulerTimer := h |}.

(** [if (schedulerTimer) clearInterval(schedulerTimer)] *)
Definition clear_schedulerTimer (t : Timers) : Timers :=
  match schedulerTimer t with
  | Some h => clearInterval h t
  | None => t
  end.

(** [startScheduler(intervalMs = 60 * 1000)]; the callback registered is
    the tick. *)
Definition startScheduler (intervalMs : option Z) (t : Timers) : Timers :=
  let t1 := clear_schedulerTimer t in
  let ht := setInterval (default (60 * 1000) intervalMs) t1 in
  set_schedulerTimer (Some ht.1) ht.2.

Definition stopScheduler (t : Timers) : Timers :=
  set_schedulerTimer None (clear_schedulerTimer t).

(** Calls of the module's two exports, in program order. *)
Inductive SchedulerCall :=
| Start (intervalMs : option Z)
| Stop.

Definition scheduler_call (c : SchedulerCall) (t : Timers) : Timers :=
  match c with
  | Start intervalMs => startScheduler intervalMs t
  | Stop => stopScheduler t
  end.

Definition scheduler_calls (cs : list SchedulerCall) (t : Timers) : Timers :=
  foldl (λ t c, scheduler_call c t) t cs.

(** Every active handle was handed out before. *)
Definition handles_fresh (t : Timers) : Prop :=
  ∀ h, is_Some (intervals t !! h) → (h < next_handle t)%nat.

(** ** The remaining message and group routes of [admin_v2.js] *)

(** What a handler answers: [res.status(code).json(payload)], or an error
    body [{ message }]. *)
Inductive Reply (A : Type) :=
| Answer (code : Z) (payload : A)
| Failure (code : Z) (message : string).
Arguments Answer {A} code payload.
Arguments Failure {A} code message.

(** [req.user?.username || 'admin'] *)
Definition acting_user (req_user : option string) : string :=
  default "admin" (truthy_string req_user).

(** [POST /messages/:id/send]; the payload is [recipientsCount]. *)
Definition post_messages_send (F : Faults) (req_user : option string)
    (req_ip id : string) : Async (Reply nat) :=
  try_catch
    (result ← sendMessageById F id (acting_user req_user) req_ip;
     match result with
     | None => mret (Failure 404 "Message not found or failed to send")
     | Some result => mret (Answer 200 (res_recipientsCount result))
     end)
    (λ _, mret (Failure 500 "Failed to send message")).

(** [GET /groups/:id/members]: manual members and filtered dynamic
    matches. *)
Definition get_group_members (F : Faults) (id : string) : Async (Reply (list string)) :=
  try_catch
    (group ← UserGroup_findById F id;
     match group with
     | None => mret (Failure 404 "Group not found")
     | Some group =>
         let recipients0 := member_username <$> members group in
         recipients1 ←
           (if has_keys (filters group) then
              let query := project_allowed (filters group) in
              if has_keys query then
                matched ← AdminUser_find F (ByFields query);
                mret (recipients0 ++ (username <$> matched))
              else mret recipients0
            else mret recipients0);
         mret (Answer 200 (Array_from_Set recipients1))
     end)
    (λ _, mret (Failure 500 "Failed to fetch group members")).

Definition with_members (ms : list GroupMember) (g : UserGroup) : UserGroup :=
  {| name := name g; group_isActive := group_isActive g;
     filters := filters g; members := ms |}.

(** [group.save()] for the document whose [_id] is [id]; [GS] says when
    the group store rejects the write. *)
Definition UserGroup_save (GS : UserGroup → option string) (id : string)
    (g : UserGroup) : Async unit :=
  guard_fault (GS g);;
  modify (with_group id g).

(** [POST /groups/:id/members]; [body_username] is [req.body.username] and
    [joinedAt] takes the schema default [Date.now]. *)
Definition post_group_members (F : Faults) (GS : UserGroup → option string)
    (req_user : option string) (req_ip id : string)
    (body_username : option string) : Async (Reply UserGroup) :=
  match truthy_string body_username with
  | None => mret (Failure 400 "Username required")
  | Some username =>
      try_catch
        (group ← UserGroup_findById F id;
         match group with
         | None => mret (Failure 404 "Group not found")
         | Some group =>
             if existsb (λ m, bool_decide (member_username m = username)) (members group)
             then mret (Failure 409 "User already in group")
             else
               now ← new_Date;
               let group :=
                 with_members
                   (members group ++ [ {| member_username := username; joinedAt := now |} ])
                   group in
               UserGroup_save GS id group;;
               logActivity F
                 {| user := acting_user req_user; action := "Add Group Member";
                    details := "Added " +:+ username +:+ " to " +:+ name group;
                    ip := req_ip |};;
               mret (Answer 200 group)
         end)
        (λ _, mret (Failure 500 "Failed to add member"))
  end.

(** [DELETE /groups/:id/members/:username] *)
Definition delete_group_member (F : Faults) (GS : UserGroup → option string)
    (req_user : option string) (req_ip id username : string)
  : Async (Reply UserGroup) :=
  try_catch
    (group ← UserGroup_findById F id;
     match group with
     | None => mret (Failure 404 "Group not found")
     | Some group =>
         let group :=
           with_members
             (filter (λ m, member_username m ≠ username) (members group)) group in
         UserGroup_save GS id group;;
         logActivity F
           {| user := acting_user req_user; action := "Remove Group Member";
              details := "Removed " +:+ username +:+ " from " +:+ name group;
              ip := req_ip |};;
         mret (Answer 200 group)
     end)
    (λ _, mret (Failure 500 "Failed to remove member")).

Definition remove_group (id : string) (w : World) : World :=
  {| messages := messages w;
     usergroups := delete id (usergroups w);
     adminusers := adminusers w; query_test := query_test w; activitylogs := activitylogs w;
     sentmail := sentmail w; SMTP_FROM := SMTP_FROM w; clock := clock w |}.

(** [UserGroup.findByIdAndDelete(id)]; [GD] is the error of a rejected
    call. *)
Definition UserGroup_findByIdAndDelete (GD : option string) (id : string)
  : Async (option UserGroup) :=
  guard_fault GD;;
  w ← get_world;
  modify (remove_group id);;
  mret (usergroups w !! id).

(** [DELETE /groups/:id]; the payload is the confirmation message. *)
Definition delete_group (F : Faults) (GD : option string)
    (req_user : option string) (req_ip id : string) : Async (Reply string) :=
  try_catch
    (group ← UserGroup_findByIdAndDelete GD id;
     match group with
     | None => mret (Failure 404 "Group not found")
     | Some group =>
         logActivity F
           {| user := acting_user req_user; action := "Delete Group";
              details := "Deleted group " +:+ name group;
              ip := req_ip |};;
         mret (Answer 200 "Group deleted")
     end)
    (λ _, mret (Failure 500 "Failed to delete group")).

(** ** Notions used in the further statements *)

(** Every run of [c] ends in a world related by [R] to the one it
    started in. *)
Definition keeps (R : World → World → Prop) {A} (c : Async A) : Prop :=
  ∀ w, R w (c w).2.

(** The stored messages and the clock are the same. *)
Definition same_messages (w w' : World) : Prop :=
  messages w' = messages w ∧ clock w' = clock w.

(** Every message of [w'] is the one [w] holds under the same id, or that
    one marked as sent at the time of [w]; no id appears or disappears. *)
Definition marks_sent (w w' : World) : Prop :=
  clock w' = clock w ∧
  ∀ j, messages w' !! j = messages w !! j ∨
       ∃ m n, messages w !! j = Some m ∧
              messages w' !! j = Some (mark_sent m (clock w) n).

(** The data model's invariant on one message: [sentAt] is set exactly
    when the status is terminal. *)
Definition sentAt_ok (m : Message) : Prop :=
  is_Some (sentAt m) ↔ (status m = Sent ∨ status m = Failed).

Definition sentAt_consistent (w : World) : Prop :=
  ∀ id m, messages w !! id = Some m → sentAt_ok m.

(** Time passes. *)
Definition set_clock (now : Z) (w : World) : World :=
  {| messages := messages w; usergroups := usergroups w;
     adminusers := adminusers w; query_test := query_test w; activitylogs := activitylogs w;
     sentmail := sentmail w; SMTP_FROM := SMTP_FROM w; clock := now |}.

(** The operations that write messages, and the passing of time. *)
Inductive Operation :=
| OpSend (F : Faults) (id actor ip : string)
| OpTick (F0 : Faults) (Fs : string → Faults)
| OpCreate (Date_parse : string → option Z) (castDate : Json → option (option Z))
    (F : Faults) (req_user : option string) (req_ip new_id : string) (req : CreateBody)
| OpSendRoute (F : Faults) (req_user : option string) (req_ip id : string)
| OpClock (now : Z).

Definition run_operation (op : Operation) (w : World) : World :=
  match op with
  | OpSend F id actor ip => (sendMessageById F id actor ip w).2
  | OpTick F0 Fs => (scheduler_tick F0 Fs w).2
  | OpCreate Date_parse castDate F req_user req_ip new_id req =>
      (post_messages Date_parse castDate F req_user req_ip new_id req w).2
  | OpSendRoute F req_user req_ip id => (post_messages_send F req_user req_ip id w).2
  | OpClock now => set_clock now w
  end.

Definition run_operations (ops : list Operation) (w : World) : World :=
  foldl (λ w op, run_operation op w) w ops.

(** The directory rejects the query by fields. *)
Definition directory_down : Faults :=
  {| findMessage_error := None; findGroup_error := None;
     findUsers_error := λ q, match q with
                             | ByFields _ => Some "adminusers unavailable"
                             | ByUsernames _ => None
                             end;
     sendMail_error := λ _, None;
     log_error := λ _, None;
     save_error := λ _, None;
     castObjectId_error := λ _, None |}.


(** Neither the mail transport nor the audit sink answers. *)
Definition relay_and_audit_down : Faults :=
  {| findMessage_error := None; findGroup_error := None;
     findUsers_error := λ _, None;
     sendMail_error := λ _, Some "ECONNREFUSED";
     log_error := λ _, Some "activitylogs unavailable";
     save_error := λ _, None;
     castObjectId_error := λ _, None |}.

(** A process with one foreign timer and no scheduler yet. *)
Definition fresh_process : Timers :=
  {| intervals := {[ 0%nat := 5000 ]}; next_handle := 1; schedulerTimer := None |}.

(** The group store accepts every write. *)
Definition groups_up : UserGroup → option string := λ _, None.

(** An operation other than the creation of a message. *)
Definition send_like (op : Operation) : Prop :=
  match op with
  | OpCreate _ _ _ _ _ _ _ => False
  | _ => True
  end.

(** ** Further examples *)

(** A [query_test] that, on the Boolean path [isActive], also accepts the
    strings "true" and "false", as a cast to the path's type does. *)
Definition casting_test (u : AdminUser) (k : string) (v : FilterValue) : bool :=
  if decide (k = "isActive") then
    if decide (v = FStr "true") then isActive u
    else if decide (v = FStr "false") then negb (isActive u)
    else field_matches u k v
  else field_matches u k v.

Definition dora : AdminUser :=
  {| username := "dora"; email := None; role := "user"; isActive := false |}.

(** No manual member and the filter [{ isActive: "true" }]. *)
Definition active_users : UserGroup :=
  {| name := "A"; group_isActive := true;
     filters := {[ "isActive" := FStr "true" ]};
     members := [] |}.

Definition to_active_users : Message :=
  {| title := "Hello"; body := "World"; targetGroup := Some "ga";
     recipients := []; channel := InApp; status := Draft;
     scheduledAt := None; sentAt := None;
     deliveryReport := {| recipientsCount := None |} |}.

(** An installation whose directory casts query values. *)
Definition casting_office : World :=
  {| messages := {[ "m9" := to_active_users ]};
     usergroups := {[ "ga" := active_users ]};
     adminusers := [alice; dora; bob];
     query_test := casting_test;
     activitylogs := [];
     sentmail := [];
     SMTP_FROM := None;
     clock := 1000 |}.

(** Recipients in an order that is neither alphabetical nor reversed. *)
Definition to_three : Message :=
  {| title := "Trio"; body := "Hello"; targetGroup := None;
     recipients := ["zoe"; "alice"; "mia"]; channel := InApp; status := Draft;
     scheduledAt := None; sentAt := None;
     deliveryReport := {| recipientsCount := None |} |}.

(** Every collaborator answers; the string "nope" is not an ObjectId. *)
Definition nope_is_malformed : Faults :=
  {| findMessage_error := None; findGroup_error := None;
     findUsers_error := λ _, None;
     sendMail_error := λ _, None;
     log_error := λ _, None;
     save_error := λ _, None;
     castObjectId_error := λ s,
       if decide (s = "nope")
       then Some "Cast to ObjectId failed for value nope"
       else None |}.


(** * Properties *)

(** ** Deduplication *)

Lemma Set_from_elem (seen l : list string) (x : string) :
  x ∈ Set_from seen l ↔ x ∈ l ∧ x ∉ seen.
Proof.
  revert seen. induction l as [|y l IH]; intros seen; simpl.
  - set_solver.
  - destruct (decide (y ∈ seen)) as [Hin|Hnin].
    + rewrite IH. set_solver.
    + rewrite elem_of_cons, IH. split.
      * intros [->|[Hl Hs]]; [set_solver|]. split; [set_solver|]. set_solver.
      * intros [Hyl Hs]. destruct (decide (x = y)) as [->|Hne]; [by left|].
        right. set_solver.
Qed.

Lemma Set_from_NoDup (seen l : list string) : NoDup (Set_from seen l).
Proof.
  revert seen. induction l as [|y l IH]; intros seen; simpl.
  - constructor.
  - destruct (decide (y ∈ seen)); [apply IH|].
    constructor; [|apply IH].
    rewrite Set_from_elem. set_solver.
Qed.

Lemma Array_from_Set_elem (l : list string) (x : string) :
  x ∈ Array_from_Set l ↔ x ∈ l.
Proof. unfold Array_from_Set. rewrite Set_from_elem. set_solver. Qed.

Lemma Array_from_Set_NoDup (l : list string) : NoDup (Array_from_Set l).
Proof. apply Set_from_NoDup. Qed.

Lemma Array_from_Set_same_elements (l1 l2 : list string) :
  (∀ x, x ∈ l1 ↔ x ∈ l2) → Array_from_Set l1 ≡ₚ Array_from_Set l2.
Proof.
  intros H. apply NoDup_Permutation; try apply Array_from_Set_NoDup.
  intros x. by rewrite !Array_from_Set_elem.
Qed.

(** ** Queries *)

Lemma matches_spec test (query : gmap string FilterValue) (u : AdminUser) :
  matches test query u = true ↔
  ∀ k v, query !! k = Some v → test u k v = true.
Proof.
  unfold matches. rewrite forallb_forall. split.
  - intros H k v Hkv. apply (H (k, v)).
    apply list_elem_of_In, elem_of_map_to_list, Hkv.
  - intros H [k v] Hin. apply H.
    by apply elem_of_map_to_list, list_elem_of_In.
Qed.

Lemma project_allowed_lookup (fs : gmap string FilterValue) k v :
  project_allowed fs !! k = Some v ↔ fs !! k = Some v ∧ k ∈ allowed.
Proof. unfold project_allowed. by rewrite map_lookup_filter_Some. Qed.

Lemma project_allowed_insert (fs : gmap string FilterValue) k v :
  k ∉ allowed → project_allowed (<[k := v]> fs) = project_allowed fs.
Proof. intros Hk. unfold project_allowed. by apply map_filter_insert_not. Qed.

Lemma project_allowed_delete (fs : gmap string FilterValue) k :
  k ∉ allowed → project_allowed (delete k fs) = project_allowed fs.
Proof. intros Hk. unfold project_allowed. by apply map_filter_delete_not. Qed.

Lemma has_keys_project (fs : gmap string FilterValue) :
  has_keys (project_allowed fs) = true → has_keys fs = true.
Proof.
  unfold has_keys. rewrite !bool_decide_eq_true. intros H ->. apply H.
  apply map_filter_empty.
Qed.

(** ** Evaluation rules of the monad *)

Lemma bind_Return {A B} (c : Async A) (k : A → Async B) w a w' :
  c w = (Return a, w') → (c ≫= k) w = k a w'.
Proof. intros H. unfold mbind, Async_bind. by rewrite H. Qed.

Lemma bind_Throw {A B} (c : Async A) (k : A → Async B) w e w' :
  c w = (Throw e, w') → (c ≫= k) w = (Throw e, w').
Proof. intros H. unfold mbind, Async_bind. by rewrite H. Qed.

Lemma try_Return {A} (c : Async A) h w a w' :
  c w = (Return a, w') → try_catch c h w = (Return a, w').
Proof. intros H. unfold try_catch. by rewrite H. Qed.

Lemma try_Throw {A} (c : Async A) h w e w' :
  c w = (Throw e, w') → try_catch c h w = h e w'.
Proof. intros H. unfold try_catch. by rewrite H. Qed.

(** ** The audience as a function of the stores *)

(** Resolution never writes. *)
Lemma resolve_frame F msg p w : (resolve F msg p w).2 = w.
Proof.
  unfold resolve, UserGroup_findById, AdminUser_find, guard_fault, get_world, throw.
  unfold mbind, Async_bind, mret, Async_ret.
  repeat (case_match; simplify_eq/=; try done).
Qed.

(** With the group store and the directory answering, resolution returns
    [audience]. *)
Lemma resolve_ok F msg w :
  findGroup_error F = None →
  (∀ q, findUsers_error F (ByFields q) = None) →
  resolve F msg (populate w msg) w = (Return (audience w msg), w).
Proof.
  intros HG HU. unfold resolve, audience, group_part.
  unfold UserGroup_findById, AdminUser_find, guard_fault, get_world.
  unfold mbind at 1, Async_bind at 1.
  destruct (populate w msg) as [gid|] eqn:Hp; simpl.
  - rewrite HG. unfold mbind, Async_bind, mret, Async_ret; simpl.
    destruct (usergroups w !! gid) as [g|] eqn:Hg; simpl.
    + destruct (has_keys (filters g)) eqn:Hk.
      * destruct (has_keys (project_allowed (filters g))) eqn:Hq; simpl.
        -- rewrite HU. simpl. by rewrite <- app_assoc.
        -- by rewrite app_nil_r.
      * destruct (has_keys (project_allowed (filters g))) eqn:Hq; simpl.
        -- apply has_keys_project in Hq. congruence.
        -- by rewrite app_nil_r.
    + by rewrite app_nil_r.
  - unfold mret, Async_ret. by rewrite app_nil_r.
Qed.

(** ** The stages of a send *)

Lemma findById_found F id w msg :
  findMessage_error F = None →
  findGroup_error F = None →
  messages w !! id = Some msg →
  Message_findById F id w = (Return (Some (msg, populate w msg)), w).
Proof.
  intros HM HG Hmsg. unfold Message_findById. rewrite HM.
  unfold mbind, Async_bind, mret, Async_ret, get_world; simpl.
  rewrite Hmsg, HG. by destruct (targetGroup msg).
Qed.

Lemma send_resolved F id actor ip w msg :
  findMessage_error F = None →
  findGroup_error F = None →
  (∀ q, findUsers_error F (ByFields q) = None) →
  messages w !! id = Some msg →
  sendMessageById F id actor ip w =
  (dispatch F actor ip id msg (audience w msg);;
   finish F actor ip id msg (audience w msg)) w.
Proof.
  intros HM HG HU Hmsg. unfold sendMessageById.
  erewrite bind_Return; [|by apply findById_found].
  unfold mbind at 1, Async_bind at 1. by rewrite resolve_ok.
Qed.

Lemma dispatch_other F actor ip id msg a w :
  channel msg ≠ Email → dispatch F actor ip id msg a w = (Return (), w).
Proof. intros H. unfold dispatch. by rewrite decide_False. Qed.

Lemma dispatch_email_eq F msg a w :
  findUsers_error F (ByUsernames a) = None →
  dispatch_email F msg a w =
  match emails_of w a with
  | [] => (Return (), w)
  | _ => (match sendMail_error F (message_mail w msg (emails_of w a)) with
          | Some err => Throw err
          | None => Return ()
          end, push_mail (message_mail w msg (emails_of w a)) w)
  end.
Proof.
  intros HU. unfold dispatch_email, AdminUser_find. rewrite HU.
  unfold emails_of, message_mail, sendEmail, transporter_sendMail.
  unfold mbind, Async_bind, mret, Async_ret, guard_fault, get_world, modify, throw; simpl.
  destruct (omap _ _); [done|].
  by destruct (sendMail_error F _).
Qed.

Lemma dispatch_no_address F actor ip id msg a w :
  findUsers_error F (ByUsernames a) = None →
  emails_of w a = [] →
  dispatch F actor ip id msg a w = (Return (), w).
Proof.
  intros HU He. unfold dispatch. case_decide; [|done].
  apply try_Return. rewrite dispatch_email_eq by done. by rewrite He.
Qed.

Lemma dispatch_email_sent F actor ip id msg a w :
  channel msg = Email →
  findUsers_error F (ByUsernames a) = None →
  emails_of w a ≠ [] →
  sendMail_error F (message_mail w msg (emails_of w a)) = None →
  dispatch F actor ip id msg a w =
  (Return (), push_mail (message_mail w msg (emails_of w a)) w).
Proof.
  intros Hc HU He HT. unfold dispatch. rewrite decide_True by done.
  apply try_Return. rewrite dispatch_email_eq by done.
  rewrite HT. by destruct (emails_of w a).
Qed.

Lemma dispatch_email_thrown F actor ip id msg a w err :
  channel msg = Email →
  findUsers_error F (ByUsernames a) = None →
  emails_of w a ≠ [] →
  sendMail_error F (message_mail w msg (emails_of w a)) = Some err →
  dispatch F actor ip id msg a w =
  ActivityLog_create F (send_error_entry actor ip id err)
    (push_mail (message_mail w msg (emails_of w a)) w).
Proof.
  intros Hc HU He HT. unfold dispatch. rewrite decide_True by done.
  unfold try_catch. rewrite dispatch_email_eq by done.
  rewrite HT. by destruct (emails_of w a).
Qed.

Lemma log_ok F entry w :
  log_error F entry = None →
  ActivityLog_create F entry w = (Return (), push_log entry w).
Proof. intros H. unfold ActivityLog_create. by rewrite H. Qed.

Lemma finish_ok F actor ip id msg a w :
  save_error F (mark_sent msg (clock w) (length a)) = None →
  log_error F (send_entry actor ip msg (length a)) = None →
  finish F actor ip id msg a w =
  (Return (Some {| res_recipientsCount := length a; messageId := id |}),
   push_log (send_entry actor ip msg (length a))
     (put_message id (mark_sent msg (clock w) (length a)) w)).
Proof.
  intros HS HL. unfold finish, new_Date, save, ActivityLog_create.
  unfold mbind at 1, Async_bind at 1. simpl. rewrite HS. simpl.
  unfold mbind, Async_bind; simpl. by rewrite HL.
Qed.

Lemma finish_audit_thrown F actor ip id msg a w err :
  save_error F (mark_sent msg (clock w) (length a)) = None →
  log_error F (send_entry actor ip msg (length a)) = Some err →
  finish F actor ip id msg a w =
  (Throw err, put_message id (mark_sent msg (clock w) (length a)) w).
Proof.
  intros HS HL. unfold finish, new_Date, save, ActivityLog_create.
  unfold mbind at 1, Async_bind at 1. simpl. rewrite HS. simpl.
  unfold mbind, Async_bind; simpl. by rewrite HL.
Qed.

(** ** A send whose stores and audit sink answer *)

Lemma dispatch_returns F actor ip id msg a w :
  findUsers_error F (ByUsernames a) = None →
  (∀ e, log_error F e = None) →
  dispatch F actor ip id msg a w = (Return (), after_dispatch F actor ip id msg a w).
Proof.
  intros HU HL. unfold after_dispatch.
  destruct (decide (channel msg = Email)) as [Hc|Hc].
  - destruct (emails_of w a) as [|e es] eqn:He.
    + by apply dispatch_no_address.
    + rewrite <- He.
      destruct (sendMail_error F (message_mail w msg (emails_of w a))) as [err|] eqn:HT.
      * rewrite (dispatch_email_thrown _ _ _ _ _ _ _ err); try done; [|by rewrite He].
        by apply log_ok.
      * apply dispatch_email_sent; try done. by rewrite He.
  - by apply dispatch_other.
Qed.

Lemma after_dispatch_clock F actor ip id msg a w :
  clock (after_dispatch F actor ip id msg a w) = clock w.
Proof. unfold after_dispatch. by repeat case_match. Qed.

Lemma send_returns F id actor ip w msg :
  reliable F →
  messages w !! id = Some msg →
  sendMessageById F id actor ip w =
  (Return (Some {| res_recipientsCount := length (audience w msg); messageId := id |}),
   push_log (send_entry actor ip msg (length (audience w msg)))
     (put_message id (mark_sent msg (clock w) (length (audience w msg)))
        (after_dispatch F actor ip id msg (audience w msg) w))).
Proof.
  intros (HM & HG & HU & HL & HS) Hmsg.
  rewrite (send_resolved _ _ _ _ _ msg) by done.
  erewrite bind_Return; [|by apply dispatch_returns].
  rewrite finish_ok by done.
  by rewrite after_dispatch_clock.
Qed.

(** A well-formed id the store does not hold: [null], and nothing
    happens; an id that cannot be cast: the CastError, and nothing
    happens. *)
Lemma send_not_found F id actor ip w :
  findMessage_error F = None →
  messages w !! id = None →
  sendMessageById F id actor ip w =
  (match castObjectId_error F id with
   | Some err => Throw err
   | None => Return None
   end, w).
Proof.
  intros HM Hmsg. unfold sendMessageById, Message_findById. rewrite HM.
  unfold mbind, Async_bind, mret, Async_ret, get_world; simpl. rewrite Hmsg.
  by destruct (castObjectId_error F id).
Qed.

(** ** What a send can touch *)

Lemma touches_only_refl id w : touches_only id w w.
Proof. by split. Qed.

Lemma touches_only_trans id w1 w2 w3 :
  touches_only id w1 w2 → touches_only id w2 w3 → touches_only id w1 w3.
Proof.
  intros [] []. split; try congruence.
  - intros j Hj. rewrite same_others1 by done. by apply same_others0.
  - by etrans.
Qed.

Lemma within_ret id {A} (a : A) : within id (mret a).
Proof. intros w. apply touches_only_refl. Qed.

Lemma within_throw id {A} e : within id (@throw A e).
Proof. intros w. apply touches_only_refl. Qed.

Lemma within_bind id {A B} (c : Async A) (k : A → Async B) :
  within id c → (∀ a, within id (k a)) → within id (c ≫= k).
Proof.
  intros Hc Hk w. unfold mbind, Async_bind.
  specialize (Hc w). destruct (c w) as [[a|e] w1]; simpl in *; [|done].
  eapply touches_only_trans; [done|apply Hk].
Qed.

Lemma within_try id {A} (c : Async A) h :
  within id c → (∀ e, within id (h e)) → within id (try_catch c h).
Proof.
  intros Hc Hh w. unfold try_catch.
  specialize (Hc w). destruct (c w) as [[a|e] w1]; simpl in *; [done|].
  eapply touches_only_trans; [done|apply Hh].
Qed.

Lemma within_guard id e : within id (guard_fault e).
Proof. destruct e; [apply within_throw|apply within_ret]. Qed.

Lemma within_get id : within id get_world.
Proof. intros w. apply touches_only_refl. Qed.

Lemma within_new_Date id : within id new_Date.
Proof. intros w. apply touches_only_refl. Qed.

Lemma within_push_log id entry : within id (modify (push_log entry)).
Proof. intros w. split; simpl; try done. by apply prefix_app_r. Qed.

Lemma within_push_mail id mo : within id (modify (push_mail mo)).
Proof. intros w. by split. Qed.

Lemma within_put_message id msg : within id (modify (put_message id msg)).
Proof.
  intros w. split; simpl; try done.
  intros j Hj. by rewrite lookup_insert_ne.
Qed.

Create HintDb within_db.
#[local] Hint Resolve within_ret within_throw within_guard within_get
  within_new_Date within_push_log within_push_mail within_put_message : within_db.

Ltac within_steps :=
  repeat first
    [ solve [auto with within_db]
    | apply within_bind; [|intros ?]
    | apply within_try; [|intros ?]
    | progress case_match ].

Lemma within_resolve id F msg p : within id (resolve F msg p).
Proof. intros w. rewrite resolve_frame. apply touches_only_refl. Qed.

Lemma within_log id F entry : within id (ActivityLog_create F entry).
Proof. unfold ActivityLog_create. within_steps. Qed.

Lemma within_dispatch id F actor ip msg a : within id (dispatch F actor ip id msg a).
Proof.
  unfold dispatch, dispatch_email, AdminUser_find, sendEmail, transporter_sendMail.
  pose proof (within_log id F). within_steps.
Qed.

Lemma within_finish id F actor ip msg a : within id (finish F actor ip id msg a).
Proof.
  unfold finish, save. pose proof (within_log id F). within_steps.
Qed.

Lemma within_send F id actor ip : within id (sendMessageById F id actor ip).
Proof.
  unfold sendMessageById, Message_findById.
  pose proof (within_resolve id F). pose proof (within_dispatch id F actor ip).
  pose proof (within_finish id F actor ip).
  within_steps.
Qed.

(** ** The loop of a tick *)

Lemma audience_ext w1 w msg :
  usergroups w1 = usergroups w → adminusers w1 = adminusers w →
  query_test w1 = query_test w →
  audience w1 msg = audience w msg.
Proof. intros Hg Hu Ht. unfold audience, populate. by rewrite Hg, Hu, Ht. Qed.

Lemma send_quietly_returns Fs kv w : (send_quietly Fs kv w).1 = Return ().
Proof.
  unfold send_quietly, try_catch, mbind, Async_bind.
  by destruct (sendMessageById _ _ _ _ w) as [[r|e] w1].
Qed.

Lemma within_send_quietly Fs kv : within kv.1 (send_quietly Fs kv).
Proof.
  unfold send_quietly. pose proof (within_send (Fs kv.1) kv.1 "system" "scheduler").
  within_steps.
Qed.

Lemma send_quietly_reliable Fs id m0 msg w :
  reliable (Fs id) →
  messages w !! id = Some msg →
  let n := length (audience w msg) in
  let w' := (send_quietly Fs (id, m0) w).2 in
  messages w' !! id = Some (mark_sent msg (clock w) n) ∧
  send_entry "system" "scheduler" msg n ∈ activitylogs w'.
Proof.
  intros HF Hmsg n w'. subst w'. unfold send_quietly, try_catch. simpl.
  erewrite bind_Return; [|by apply send_returns]. simpl. split.
  - apply lookup_insert_eq.
  - apply elem_of_app. right. apply list_elem_of_singleton. done.
Qed.

Lemma for_of_sends Fs l w :
  ∃ w', for_of l (send_quietly Fs) w = (Return (), w') ∧
        usergroups w' = usergroups w ∧
        adminusers w' = adminusers w ∧
        clock w' = clock w ∧
        activitylogs w `prefix_of` activitylogs w' ∧
        (∀ j, j ∉ l.*1 → messages w' !! j = messages w !! j) ∧
        (NoDup l.*1 → ∀ id msg,
           id ∈ l.*1 → messages w !! id = Some msg → reliable (Fs id) →
           messages w' !! id
             = Some (mark_sent msg (clock w) (length (audience w msg))) ∧
           send_entry "system" "scheduler" msg (length (audience w msg))
             ∈ activitylogs w').
Proof.
  revert w. induction l as [|[x m0] l IH]; intros w.
  - exists w. split_and!; try done. intros _ ? ? Hin. by apply elem_of_nil in Hin.
  - simpl.
    pose proof (send_quietly_returns Fs (x, m0) w) as Hr.
    pose proof (within_send_quietly Fs (x, m0) w) as Hw.
    pose proof (send_quietly_reliable Fs x m0) as Hx.
    destruct (send_quietly Fs (x, m0) w) as [r w1] eqn:E. simpl in *. subst r.
    destruct (IH w1) as (w' & Hrun & Hg & Hu & Hc & Hl & Hframe & Hsent).
    destruct Hw as [Hg1 Hu1 Ht1 Hc1 He1 Ho1 Hl1].
    exists w'. split; [by erewrite bind_Return|].
    split; [congruence|]. split; [congruence|]. split; [congruence|].
    split; [by etrans|]. split.
    + intros j Hj. apply not_elem_of_cons in Hj as [Hjx Hjl].
      rewrite Hframe by done. by apply Ho1.
    + intros Hnd id msg Hin Hmsg HF.
      apply NoDup_cons in Hnd as [Hxl Hnd].
      destruct (decide (id = x)) as [->|Hne].
      * specialize (Hx msg w HF Hmsg). rewrite E in Hx. simpl in Hx.
        destruct Hx as [Hx1 Hx2]. split.
        -- by rewrite Hframe.
        -- by eapply elem_of_prefix.
      * apply elem_of_cons in Hin as [?|Hin]; [done|].
        rewrite <- Hc1, <- (audience_ext w1 w msg) by done.
        apply Hsent; try done. by rewrite Ho1.
Qed.

Lemma due_list_spec (w : World) (now : Z) id msg :
  (id, msg) ∈ filter (λ kv, is_due now kv.2 = true) (map_to_list (messages w)) ↔
  messages w !! id = Some msg ∧ is_due now msg = true.
Proof. rewrite list_elem_of_filter, elem_of_map_to_list. simpl. tauto. Qed.

Lemma due_list_NoDup (w : World) (now : Z) :
  NoDup (filter (λ kv, is_due now kv.2 = true) (map_to_list (messages w))).*1.
Proof.
  eapply sublist_NoDup; [apply (NoDup_fst_map_to_list (messages w))|].
  apply fmap_sublist, sublist_filter.
Qed.

Lemma is_due_spec now msg :
  is_due now msg = true ↔
  status msg = Scheduled ∧ ∃ t, scheduledAt msg = Some t ∧ t ≤ now.
Proof.
  unfold is_due. rewrite andb_true_iff, bool_decide_eq_true.
  destruct (scheduledAt msg) as [t|].
  - rewrite bool_decide_eq_true. naive_solver.
  - naive_solver.
Qed.

Lemma scheduler_tick_eq F0 Fs w :
  findMessage_error F0 = None →
  scheduler_tick F0 Fs w =
  for_of (filter (λ kv, is_due (clock w) kv.2 = true) (map_to_list (messages w)))
    (send_quietly Fs) w.
Proof.
  intros HM. unfold scheduler_tick, Message_find_due, new_Date. rewrite HM.
  destruct (for_of_sends Fs
    (filter (λ kv, is_due (clock w) kv.2 = true) (map_to_list (messages w))) w)
    as (w' & Hrun & _).
  rewrite Hrun. apply try_Return.
  unfold mbind, Async_bind, mret, Async_ret, get_world; simpl.
  exact Hrun.
Qed.

(** A tick never throws, whatever rejects underneath. *)
Lemma scheduler_tick_returns F0 Fs w : (scheduler_tick F0 Fs w).1 = Return ().
Proof.
  unfold scheduler_tick, try_catch.
  match goal with
  | |- context [match ?c with _ => _ end] => destruct c as [[[]|e] w1]
  end; done.
Qed.

Lemma reliable_no_faults : reliable no_faults.
Proof. by repeat split. Qed.

Lemma reliable_relay_down : reliable relay_down.
Proof. by repeat split. Qed.

(** ** Audience resolution *)

Lemma resolve_unpopulated F msg w :
  resolve F msg None w = (Return (Array_from_Set (recipients msg)), w).
Proof. reflexivity. Qed.

Lemma populate_no_target w msg : targetGroup msg = None → populate w msg = None.
Proof. intros H. unfold populate. by rewrite H. Qed.

Lemma populate_missing w msg gid :
  targetGroup msg = Some gid → usergroups w !! gid = None → populate w msg = None.
Proof. intros H1 H2. unfold populate. rewrite H1. simpl. by rewrite H2. Qed.

Lemma populate_present w msg gid g :
  targetGroup msg = Some gid → usergroups w !! gid = Some g → populate w msg = Some gid.
Proof. intros H1 H2. unfold populate. rewrite H1. simpl. by rewrite H2. Qed.

Lemma audience_recipients_only w msg :
  populate w msg = None → audience w msg = Array_from_Set (recipients msg).
Proof. intros H. unfold audience. rewrite H. simpl. by rewrite app_nil_r. Qed.

(** C3: a message without a target group resolves to exactly its explicit
    recipients, without duplicates; two such messages whose recipient lists
    hold the same usernames, in whatever order and however often, resolve
    to the same set. No collaborator is consulted, so nothing can fail. *)
Theorem resolve_no_group F w msg :
  targetGroup msg = None →
  ∃ l, resolve F msg (populate w msg) w = (Return l, w) ∧
       NoDup l ∧
       (∀ u, u ∈ l ↔ u ∈ recipients msg) ∧
       ∀ msg', targetGroup msg' = None →
               (∀ u, u ∈ recipients msg' ↔ u ∈ recipients msg) →
               ∃ l', resolve F msg' (populate w msg') w = (Return l', w) ∧ l' ≡ₚ l.
Proof.
  intros Hno. exists (Array_from_Set (recipients msg)).
  rewrite populate_no_target by done. split; [apply resolve_unpopulated|].
  split; [apply Array_from_Set_NoDup|]. split; [apply Array_from_Set_elem|].
  intros msg' Hno' Hsame. exists (Array_from_Set (recipients msg')).
  rewrite populate_no_target by done. split; [apply resolve_unpopulated|].
  by apply Array_from_Set_same_elements.
Qed.

Lemma resolve_no_group_witness :
  targetGroup already_sent = None ∧
  ∃ l, resolve relay_down already_sent (populate office already_sent) office
         = (Return l, office) ∧
       NoDup l ∧ ∀ u, u ∈ l ↔ u ∈ ["alice"; "bob"; "alice"].
Proof.
  split; [reflexivity|].
  destruct (resolve_no_group relay_down office already_sent eq_refl)
    as (l & Hl & Hnd & Hel & _).
  exists l. auto.
Defined.

(** C4: a message whose [targetGroup] points at a group the store no longer
    holds resolves to its deduplicated explicit recipients, and the send
    goes through with that count. *)
Theorem send_missing_group F w id msg gid actor ip :
  messages w !! id = Some msg →
  targetGroup msg = Some gid →
  usergroups w !! gid = None →
  ∃ l, resolve F msg (populate w msg) w = (Return l, w) ∧
       NoDup l ∧
       (∀ u, u ∈ l ↔ u ∈ recipients msg) ∧
       (reliable F →
        ∃ w', sendMessageById F id actor ip w
              = (Return (Some {| res_recipientsCount := length l; messageId := id |}), w') ∧
              status <$> messages w' !! id = Some Sent).
Proof.
  intros Hmsg Htg Hgone. exists (Array_from_Set (recipients msg)).
  pose proof (populate_missing w msg gid Htg Hgone) as Hp.
  rewrite Hp. split; [apply resolve_unpopulated|].
  split; [apply Array_from_Set_NoDup|]. split; [apply Array_from_Set_elem|].
  intros HF. eexists. rewrite (send_returns F id actor ip w msg HF Hmsg).
  rewrite (audience_recipients_only w msg Hp). split; [reflexivity|].
  simpl. by rewrite lookup_insert_eq.
Qed.

Lemma send_missing_group_witness :
  messages office !! "m3" = Some to_deleted_group ∧
  targetGroup to_deleted_group = Some "gone" ∧
  usergroups office !! "gone" = None ∧
  ∃ l, resolve no_faults to_deleted_group (populate office to_deleted_group) office
         = (Return l, office) ∧
       ∀ u, u ∈ l ↔ u ∈ ["dave"; "alice"; "dave"].
Proof.
  split; [reflexivity|]. split; [reflexivity|]. split; [reflexivity|].
  destruct (send_missing_group no_faults office "m3" to_deleted_group "gone"
              "admin" "10.0.0.1" eq_refl eq_refl eq_refl)
    as (l & Hl & _ & Hel & _).
  exists l. auto.
Defined.

Lemma directory_matches_elem test (q : gmap string FilterValue)
    (users : list AdminUser) u :
  u ∈ username <$> select_users test (ByFields q) users ↔
  ∃ x, x ∈ users ∧ username x = u ∧
       ∀ k v, q !! k = Some v → test x k v = true.
Proof.
  rewrite list_elem_of_fmap. simpl. split.
  - intros (x & -> & Hx). apply list_elem_of_filter in Hx as [Hm Hx].
    exists x. split; [done|]. split; [done|]. by apply matches_spec.
  - intros (x & Hx & <- & Hm). exists x. split; [done|].
    apply list_elem_of_filter. split; [|done]. by apply matches_spec.
Qed.

Lemma has_keys_true (o : gmap string FilterValue) : has_keys o = true ↔ o ≠ ∅.
Proof. unfold has_keys. by rewrite bool_decide_eq_true. Qed.

Lemma group_part_elem test (users : list AdminUser) (g : UserGroup) u :
  u ∈ group_part test users g ↔
  u ∈ member_username <$> members g ∨
  (project_allowed (filters g) ≠ ∅ ∧
   ∃ x, x ∈ users ∧ username x = u ∧
        ∀ k v, filters g !! k = Some v → k ∈ allowed → test x k v = true).
Proof.
  unfold group_part. rewrite elem_of_app.
  destruct (has_keys (project_allowed (filters g))) eqn:Hk.
  - apply has_keys_true in Hk. rewrite directory_matches_elem.
    setoid_rewrite project_allowed_lookup. naive_solver.
  - assert (¬ project_allowed (filters g) ≠ ∅) as Hn.
    { intros H. apply has_keys_true in H. congruence. }
    rewrite elem_of_nil. naive_solver.
Qed.

Lemma group_part_filters test (users : list AdminUser) (g : UserGroup) fs :
  project_allowed fs = project_allowed (filters g) →
  group_part test users (with_filters fs g) = group_part test users g.
Proof. intros H. unfold group_part. simpl. by rewrite H. Qed.

Lemma audience_with_filters w msg gid g fs :
  targetGroup msg = Some gid →
  usergroups w !! gid = Some g →
  project_allowed fs = project_allowed (filters g) →
  audience (with_group gid (with_filters fs g) w) msg = audience w msg.
Proof.
  intros Htg Hg Hfs. unfold audience.
  rewrite (populate_present w msg gid g) by done.
  rewrite (populate_present _ msg gid (with_filters fs g)) by (done || apply lookup_insert_eq).
  simpl. rewrite lookup_insert_eq, Hg. by rewrite group_part_filters.
Qed.

(** C2, amended: for a message whose target group exists, the resolved
    audience is duplicate-free and holds exactly the explicit recipients,
    the group's manual members and, when at least one allow-listed key is
    present in the group's filters, the directory users that satisfy the
    condition of every allow-listed key, as the directory decides it
    (whatever cast or operator the value involves); keys outside the
    allow-list never matter. *)
Theorem resolve_group_union F w msg gid g :
  targetGroup msg = Some gid →
  usergroups w !! gid = Some g →
  findGroup_error F = None →
  (∀ q, findUsers_error F (ByFields q) = None) →
  ∃ l, resolve F msg (populate w msg) w = (Return l, w) ∧
       NoDup l ∧
       (∀ u, u ∈ l ↔
          u ∈ recipients msg ∨
          u ∈ member_username <$> members g ∨
          (project_allowed (filters g) ≠ ∅ ∧
           ∃ x, x ∈ adminusers w ∧ username x = u ∧
                ∀ k v, filters g !! k = Some v → k ∈ allowed →
                       query_test w x k v = true)) ∧
       (∀ k fs, k ∉ allowed →
          fs = delete k (filters g) ∨ (∃ v, fs = <[k := v]> (filters g)) →
          let w' := with_group gid (with_filters fs g) w in
          resolve F msg (populate w' msg) w' = (Return l, w')).
Proof.
  intros Htg Hg HG HU. exists (audience w msg).
  split; [by apply resolve_ok|]. split; [apply Array_from_Set_NoDup|]. split.
  - intros u. unfold audience. rewrite Array_from_Set_elem, elem_of_app.
    rewrite (populate_present w msg gid g) by done. simpl. rewrite Hg.
    by rewrite group_part_elem.
  - intros k fs Hk Hfs w'. subst w'. rewrite resolve_ok by done.
    f_equal. f_equal. apply audience_with_filters; try done.
    destruct Hfs as [->|[v ->]].
    + by apply project_allowed_delete.
    + by apply project_allowed_insert.
Qed.

Lemma resolve_group_union_witness :
  targetGroup to_moderators = Some "g1" ∧
  usergroups office !! "g1" = Some moderators ∧
  (∃ l, resolve no_faults to_moderators (populate office to_moderators) office
          = (Return l, office) ∧
        NoDup l ∧
        ∀ fs, fs = <[ "department" := FStr "sales" ]> (filters moderators) →
              let w' := with_group "g1" (with_filters fs moderators) office in
              resolve no_faults to_moderators (populate w' to_moderators) w'
              = (Return l, w')) ∧
  targetGroup to_active_users = Some "ga" ∧
  usergroups casting_office !! "ga" = Some active_users ∧
  ∃ l, resolve no_faults to_active_users (populate casting_office to_active_users)
         casting_office = (Return l, casting_office) ∧
       ("alice" ∈ l) ∧ ("bob" ∈ l) ∧ ("dora" ∉ l).
Proof.
  split; [reflexivity|]. split; [reflexivity|]. split; [|split; [reflexivity|split; [reflexivity|]]].
  - destruct (resolve_group_union no_faults office to_moderators "g1" moderators
                eq_refl eq_refl eq_refl (λ _, eq_refl))
      as (l & Hl & Hnd & _ & Hk).
    exists l. split; [done|]. split; [done|].
    intros fs Hfs. apply (Hk "department"); [|right; by eexists].
    unfold allowed. rewrite !elem_of_cons, elem_of_nil. intros [?|[?|[?|?]]]; done.
  - destruct (resolve_group_union no_faults casting_office to_active_users "ga"
                active_users eq_refl eq_refl eq_refl (λ _, eq_refl))
      as (l & Hl & _ & Hin & _).
    exists l. split; [done|].
    assert (∀ x, isActive x = true →
              ∀ k v, filters active_users !! k = Some v → k ∈ allowed →
                     query_test casting_office x k v = true) as Hactive.
    { intros x Hx k v Hkv _. simpl in Hkv.
      apply lookup_singleton_Some in Hkv as [<- <-].
      exact Hx. }
    assert (project_allowed (filters active_users) ≠ ∅) as Hkeys.
    { intros H. apply (f_equal (λ m, m !! "isActive")) in H.
      vm_compute in H. discriminate. }
    split; [|split].
    + apply Hin. right. right. split; [exact Hkeys|].
      exists alice. split; [simpl; rewrite !elem_of_cons; auto|].
      split; [done|]. by apply Hactive.
    + apply Hin. right. right. split; [exact Hkeys|].
      exists bob. split; [simpl; rewrite !elem_of_cons; auto|].
      split; [done|]. by apply Hactive.
    + intros Hd. apply Hin in Hd as [Hd|[Hd|(_ & x & Hx & Hu & Hq)]].
      * simpl in Hd. inversion Hd.
      * simpl in Hd. inversion Hd.
      * assert ("isActive" ∈ allowed) as Hk
          by (unfold allowed; rewrite !elem_of_cons; auto).
        specialize (Hq "isActive" (FStr "true") eq_refl Hk).
        simpl in Hx. rewrite !elem_of_cons, elem_of_nil in Hx.
        destruct Hx as [->|[->|[->|[]]]];
          [discriminate Hu|discriminate Hq|discriminate Hu].
Defined.

(** The scenario of the specification: manual member alice, filter
    [{role: "moderator"}], directory bob (moderator) and carol (admin),
    explicit recipient dave. *)
Example resolve_scenario :
  resolve no_faults to_moderators (populate office to_moderators) office
  = (Return ["dave"; "alice"; "bob"], office).
Proof. vm_compute. reflexivity. Qed.

(** A directory that casts the string "true" on the Boolean path
    [isActive]: the filter [{ isActive: "true" }] reaches the active users. *)
Example resolve_casting_directory :
  resolve no_faults to_active_users (populate casting_office to_active_users)
    casting_office
  = (Return ["alice"; "bob"], casting_office).
Proof. vm_compute. reflexivity. Qed.

(** C2 as stated fails: a group with the default empty [filters] has an
    empty projection, which every directory user matches, yet none of them
    is added to the audience. *)
Lemma resolve_group_union_counterexample :
  targetGroup to_empty_group = Some "g0" ∧
  usergroups office !! "g0" = Some empty_group ∧
  resolve no_faults to_empty_group (populate office to_empty_group) office
  = (Return ["dave"], office) ∧
  ¬ (∀ u, u ∈ ["dave"] ↔
       u ∈ recipients to_empty_group ∨
       u ∈ member_username <$> members empty_group ∨
       ∃ x, x ∈ adminusers office ∧ username x = u ∧
            ∀ k v, filters empty_group !! k = Some v → k ∈ allowed →
                   query_test office x k v = true).
Proof.
  split; [reflexivity|]. split; [reflexivity|]. split; [by vm_compute|].
  intros H. specialize (H "bob"). destruct H as [_ H].
  assert ("bob" ∈ ["dave"]) as Hbob.
  { apply H. right. right. exists bob. split; [set_solver|]. split; [done|].
    intros k v Hkv. simpl in Hkv. by rewrite lookup_empty in Hkv. }
  apply list_elem_of_singleton in Hbob. discriminate.
Qed.

(** ** Dispatch *)

Lemma after_dispatch_sentmail F actor ip id msg a w :
  sentmail (after_dispatch F actor ip id msg a w) = sentmail w ++ transport_calls w msg a.
Proof.
  unfold after_dispatch, transport_calls, message_mail.
  repeat case_match; simpl; by rewrite ?app_nil_r.
Qed.

Lemma emails_of_spec w a e :
  e ∈ emails_of w a ↔
  ∃ u, u ∈ adminusers w ∧ username u ∈ a ∧ email u = Some e ∧ e ≠ "".
Proof.
  unfold emails_of. rewrite list_elem_of_omap. simpl. split.
  - intros (u & Hu & He). apply list_elem_of_filter in Hu as [Ha Hu].
    exists u. split; [done|]. split; [done|].
    destruct (email u) as [s|]; [|done]. destruct s; [done|].
    simpl in He. by simplify_eq.
  - intros (u & Hu & Ha & He & Hne). exists u. split.
    + by apply list_elem_of_filter.
    + rewrite He. by destruct e.
Qed.

Lemma emails_of_nil w a :
  (∀ u, u ∈ adminusers w → username u ∈ a → email u = None ∨ email u = Some "") →
  emails_of w a = [].
Proof.
  intros H. apply elem_of_nil_inv. intros e He.
  apply emails_of_spec in He as (u & Hu & Ha & He & Hne).
  destruct (H u Hu Ha); congruence.
Qed.

(** The persisted document after a send that got as far as [msg.save()]. *)
Lemma sent_document F id actor ip w msg entry :
  messages (push_log entry
    (put_message id (mark_sent msg (clock w) (length (audience w msg)))
       (after_dispatch F actor ip id msg (audience w msg) w))) !! id
  = Some (mark_sent msg (clock w) (length (audience w msg))).
Proof. simpl. apply lookup_insert_eq. Qed.

Lemma resolve_reliable F msg w :
  reliable F → resolve F msg (populate w msg) w = (Return (audience w msg), w).
Proof. intros (_ & HG & HU & _). by apply resolve_ok. Qed.

(** C1 as stated fails: the send has no guard on the status. A message
    that was sent at instant 5 to seven recipients is dispatched again at
    instant 1000: [sentAt] and [deliveryReport] are overwritten and the
    transport is called once more. *)
Lemma send_terminal_counterexample :
  let w' := (sendMessageById no_faults "m4" "admin" "10.0.0.1" office).2 in
  status <$> messages office !! "m4" = Some Sent ∧
  sentAt <$> messages office !! "m4" = Some (Some 5) ∧
  sentAt <$> messages w' !! "m4" = Some (Some 1000) ∧
  deliveryReport <$> messages office !! "m4" = Some {| recipientsCount := Some 7%nat |} ∧
  deliveryReport <$> messages w' !! "m4" = Some {| recipientsCount := Some 2%nat |} ∧
  sentmail office = [] ∧
  length (sentmail w') = 1%nat.
Proof. vm_compute. repeat split. Qed.

(** C1, amended: with the stores and the audit sink answering, a send on a
    message that is already 'sent' or 'failed' runs like any other send:
    the status is 'sent', [sentAt] becomes the current time,
    [deliveryReport.recipientsCount] becomes the size of the audience
    resolved now, and the email channel calls the transport again whenever
    there is an address to write to. *)
Theorem send_terminal_again F w id msg actor ip :
  reliable F →
  messages w !! id = Some msg →
  status msg = Sent ∨ status msg = Failed →
  ∃ a w',
    resolve F msg (populate w msg) w = (Return a, w) ∧
    sendMessageById F id actor ip w
    = (Return (Some {| res_recipientsCount := length a; messageId := id |}), w') ∧
    status <$> messages w' !! id = Some Sent ∧
    sentAt <$> messages w' !! id = Some (Some (clock w)) ∧
    deliveryReport <$> messages w' !! id
    = Some {| recipientsCount := Some (length a) |} ∧
    sentmail w' = sentmail w ++ transport_calls w msg a.
Proof.
  intros HF Hmsg _. exists (audience w msg). eexists.
  split; [by apply resolve_reliable|].
  split; [by apply send_returns|].
  rewrite sent_document. split_and!; try done.
  simpl. apply after_dispatch_sentmail.
Qed.

Lemma send_terminal_again_witness :
  reliable no_faults ∧
  messages office !! "m4" = Some already_sent ∧
  status already_sent = Sent ∧
  ∃ w', (sendMessageById no_faults "m4" "admin" "10.0.0.1" office).2 = w' ∧
        sentAt <$> messages w' !! "m4" = Some (Some 1000).
Proof.
  split; [apply reliable_no_faults|]. split; [reflexivity|]. split; [reflexivity|].
  destruct (send_terminal_again no_faults office "m4" already_sent "admin" "10.0.0.1"
              reliable_no_faults eq_refl (or_introl eq_refl))
    as (a & w' & _ & Hs & _ & Hat & _).
  exists w'. split; [by rewrite Hs|exact Hat].
Defined.

(** C5: when the transport call of an email send throws, the message is
    still persisted as 'sent' with [deliveryReport.recipientsCount] equal
    to the size of the resolved audience, the audit log receives a 'Send
    Message Error' entry and then the usual 'Send Message' entry, and the
    send returns the count. *)
Theorem send_survives_transport_error F w id msg actor ip err :
  reliable F →
  messages w !! id = Some msg →
  channel msg = Email →
  emails_of w (audience w msg) ≠ [] →
  sendMail_error F (message_mail w msg (emails_of w (audience w msg))) = Some err →
  ∃ a w',
    resolve F msg (populate w msg) w = (Return a, w) ∧
    sendMessageById F id actor ip w
    = (Return (Some {| res_recipientsCount := length a; messageId := id |}), w') ∧
    status <$> messages w' !! id = Some Sent ∧
    deliveryReport <$> messages w' !! id
    = Some {| recipientsCount := Some (length a) |} ∧
    activitylogs w' = activitylogs w ++
      [send_error_entry actor ip id err; send_entry actor ip msg (length a)] ∧
    action (send_error_entry actor ip id err) = "Send Message Error" ∧
    action (send_entry actor ip msg (length a)) = "Send Message".
Proof.
  intros HF Hmsg Hc He HT. exists (audience w msg). eexists.
  split; [by apply resolve_reliable|].
  split; [by apply send_returns|].
  rewrite sent_document. split_and!; try done.
  simpl. unfold after_dispatch. rewrite decide_True by done. rewrite HT.
  destruct (emails_of w (audience w msg)); [done|]. simpl.
  by rewrite <- app_assoc.
Qed.

Lemma send_survives_transport_error_witness :
  reliable relay_down ∧
  messages office !! "m1" = Some to_moderators ∧
  channel to_moderators = Email ∧
  emails_of office (audience office to_moderators) ≠ [] ∧
  ∃ w', sendMessageById relay_down "m1" "admin" "10.0.0.1" office
        = (Return (Some {| res_recipientsCount := 3; messageId := "m1" |}), w') ∧
        status <$> messages w' !! "m1" = Some Sent.
Proof.
  split; [apply reliable_relay_down|]. split; [reflexivity|]. split; [reflexivity|].
  assert (emails_of office (audience office to_moderators) ≠ []) as He
    by (vm_compute; discriminate).
  split; [exact He|].
  destruct (send_survives_transport_error relay_down office "m1" to_moderators
              "admin" "10.0.0.1" "ECONNREFUSED" reliable_relay_down eq_refl eq_refl
              He eq_refl)
    as (a & w' & Ha & Hs & Hst & _).
  exists w'. split; [|exact Hst].
  vm_compute in Ha. injection Ha as <-. exact Hs.
Defined.

(** C6: an email send calls the transport at most once, with exactly the
    non-empty addresses of the directory users whose username is in the
    resolved audience, while [deliveryReport.recipientsCount] and the
    returned count are the size of the resolved audience, whether or not
    every resolved user has an address and whether or not the transport
    accepts the mail. *)
Theorem send_email_addresses F w id msg actor ip :
  reliable F →
  messages w !! id = Some msg →
  channel msg = Email →
  ∃ a w',
    resolve F msg (populate w msg) w = (Return a, w) ∧
    sendMessageById F id actor ip w
    = (Return (Some {| res_recipientsCount := length a; messageId := id |}), w') ∧
    deliveryReport <$> messages w' !! id
    = Some {| recipientsCount := Some (length a) |} ∧
    (∀ e, e ∈ emails_of w a ↔
          ∃ u, u ∈ adminusers w ∧ username u ∈ a ∧ email u = Some e ∧ e ≠ "") ∧
    sentmail w' = sentmail w ++
      match emails_of w a with
      | [] => []
      | es => [mailOptions (SMTP_FROM w)
                 {| to := es; subject := title msg;
                    html := "<p>" +:+ body msg +:+ "</p>" |}]
      end.
Proof.
  intros HF Hmsg Hc. exists (audience w msg). eexists.
  split; [by apply resolve_reliable|].
  split; [by apply send_returns|].
  rewrite sent_document. split; [done|]. split; [apply emails_of_spec|].
  simpl. rewrite after_dispatch_sentmail. unfold transport_calls.
  by rewrite decide_True.
Qed.

(** The scenario of the specification: the audience is alice and bob, only
    alice has an address; the transport receives one mail to alice and the
    report counts two recipients. *)
Lemma send_email_addresses_witness :
  reliable no_faults ∧
  messages office !! "m4" = Some already_sent ∧
  channel already_sent = Email ∧
  ∃ w', sendMessageById no_faults "m4" "admin" "10.0.0.1" office
        = (Return (Some {| res_recipientsCount := 2; messageId := "m4" |}), w') ∧
        deliveryReport <$> messages w' !! "m4" = Some {| recipientsCount := Some 2%nat |} ∧
        mail_to <$> sentmail w' = ["alice@example.com"].
Proof.
  split; [apply reliable_no_faults|]. split; [reflexivity|]. split; [reflexivity|].
  destruct (send_email_addresses no_faults office "m4" already_sent "admin" "10.0.0.1"
              reliable_no_faults eq_refl eq_refl)
    as (a & w' & Ha & Hs & Hr & _ & Hm).
  vm_compute in Ha. injection Ha as <-.
  exists w'. split; [exact Hs|]. split; [exact Hr|].
  rewrite Hm. reflexivity.
Defined.

(** C10: when no resolved user has a non-empty email address, an email
    send makes no transport call at all, and the message is still
    persisted as 'sent' with the size of the resolved audience, which the
    send returns. *)
Theorem send_email_no_address F w id msg actor ip :
  reliable F →
  messages w !! id = Some msg →
  channel msg = Email →
  (∀ u, u ∈ adminusers w → username u ∈ audience w msg →
        email u = None ∨ email u = Some "") →
  ∃ a w',
    resolve F msg (populate w msg) w = (Return a, w) ∧
    sendMessageById F id actor ip w
    = (Return (Some {| res_recipientsCount := length a; messageId := id |}), w') ∧
    sentmail w' = sentmail w ∧
    status <$> messages w' !! id = Some Sent ∧
    deliveryReport <$> messages w' !! id
    = Some {| recipientsCount := Some (length a) |}.
Proof.
  intros HF Hmsg Hc Hnone. exists (audience w msg). eexists.
  split; [by apply resolve_reliable|].
  split; [by apply send_returns|].
  rewrite sent_document. split; [|done].
  simpl. rewrite after_dispatch_sentmail. unfold transport_calls.
  rewrite emails_of_nil by done. rewrite decide_True by done. apply app_nil_r.
Qed.

Lemma send_email_no_address_witness :
  reliable relay_down ∧
  messages office !! "m5" = Some only_bob ∧
  channel only_bob = Email ∧
  ∃ w', sendMessageById relay_down "m5" "admin" "10.0.0.1" office
        = (Return (Some {| res_recipientsCount := 1; messageId := "m5" |}), w') ∧
        sentmail w' = [] ∧
        status <$> messages w' !! "m5" = Some Sent.
Proof.
  split; [apply reliable_relay_down|]. split; [reflexivity|]. split; [reflexivity|].
  assert (∀ u, u ∈ adminusers office → username u ∈ audience office only_bob →
               email u = None ∨ email u = Some "") as Hnone.
  { intros u Hu Ha. apply Array_from_Set_elem in Ha. simpl in Ha.
    apply list_elem_of_singleton in Ha.
    simpl in Hu. rewrite !elem_of_cons, elem_of_nil in Hu.
    destruct Hu as [->|[->|[->|[]]]]; try discriminate. by left. }
  destruct (send_email_no_address relay_down office "m5" only_bob "admin" "10.0.0.1"
              reliable_relay_down eq_refl eq_refl Hnone)
    as (a & w' & Ha & Hs & Hm & Hst & _).
  vm_compute in Ha. injection Ha as <-.
  exists w'. split; [exact Hs|]. split; [exact Hm|exact Hst].
Defined.

(** ** The audit sink *)

Lemma dispatch_transport_ok F actor ip id msg a w :
  findUsers_error F (ByUsernames a) = None →
  (∀ mo, sendMail_error F mo = None) →
  dispatch F actor ip id msg a w = (Return (), after_dispatch F actor ip id msg a w).
Proof.
  intros HU HT. unfold after_dispatch.
  destruct (decide (channel msg = Email)) as [Hc|Hc].
  - destruct (emails_of w a) as [|e es] eqn:He.
    + by apply dispatch_no_address.
    + rewrite <- He. rewrite HT. apply dispatch_email_sent; try done. by rewrite He.
  - by apply dispatch_other.
Qed.

(** C7 does not hold of [sendMessageById]: the 'Send Message' record is
    written by a bare [await ActivityLog.create(...)], outside any [try].
    When the sink rejects that write the send rejects with the sink's
    error, after the message has been persisted as 'sent'; no count is
    returned. *)
Theorem send_audit_failure_propagates F w id msg actor ip err :
  findMessage_error F = None →
  findGroup_error F = None →
  (∀ q, findUsers_error F q = None) →
  (∀ mo, sendMail_error F mo = None) →
  (∀ m, save_error F m = None) →
  messages w !! id = Some msg →
  log_error F (send_entry actor ip msg (length (audience w msg))) = Some err →
  ∃ w', sendMessageById F id actor ip w = (Throw err, w') ∧
        messages w' !! id
        = Some (mark_sent msg (clock w) (length (audience w msg))) ∧
        activitylogs w' = activitylogs w.
Proof.
  intros HM HG HU HT HS Hmsg HL. eexists.
  rewrite (send_resolved _ _ _ _ _ msg) by done.
  erewrite bind_Return; [|by apply dispatch_transport_ok].
  rewrite (finish_audit_thrown _ _ _ _ _ _ _ err);
    rewrite ?after_dispatch_clock; try done.
  split; [reflexivity|]. split; [apply lookup_insert_eq|].
  simpl. unfold after_dispatch. rewrite !HT. by repeat case_match.
Qed.

Lemma send_audit_failure_propagates_witness :
  messages office !! "m2" = Some to_empty_group ∧
  log_error audit_down
    (send_entry "admin" "10.0.0.1" to_empty_group
       (length (audience office to_empty_group))) = Some "activitylogs unavailable" ∧
  ∃ w', sendMessageById audit_down "m2" "admin" "10.0.0.1" office
        = (Throw "activitylogs unavailable", w') ∧
        status <$> messages w' !! "m2" = Some Sent.
Proof.
  split; [reflexivity|]. split; [reflexivity|].
  destruct (send_audit_failure_propagates audit_down office "m2" to_empty_group
              "admin" "10.0.0.1" "activitylogs unavailable"
              eq_refl eq_refl (λ _, eq_refl) (λ _, eq_refl) (λ _, eq_refl)
              eq_refl eq_refl)
    as (w' & Hs & Hm & _).
  exists w'. split; [exact Hs|]. by rewrite Hm.
Defined.

(** ** The scheduler *)

(** C8: on a tick whose query of the message store answers, every message
    that is 'scheduled' with [scheduledAt] at or before the current time is
    sent with actor "system" and ends up 'sent', provided the collaborators
    answer during its own send, whatever fails during the sends of the
    other due messages; every message that is not due (in particular a
    'scheduled' one whose [scheduledAt] lies in the future) is left as it
    was. *)
Theorem scheduler_tick_sends_due F0 Fs w :
  findMessage_error F0 = None →
  ∃ w',
    scheduler_tick F0 Fs w = (Return (), w') ∧
    (∀ id msg,
       messages w !! id = Some msg →
       status msg = Scheduled →
       (∃ t, scheduledAt msg = Some t ∧ t ≤ clock w) →
       reliable (Fs id) →
       ∃ msg', messages w' !! id = Some msg' ∧
               status msg' = Sent ∧
               sentAt msg' = Some (clock w) ∧
               send_entry "system" "scheduler" msg (length (audience w msg))
                 ∈ activitylogs w') ∧
    (∀ id msg,
       messages w !! id = Some msg →
       (status msg = Scheduled → ∀ t, scheduledAt msg = Some t → clock w < t) →
       messages w' !! id = Some msg).
Proof.
  intros HM. rewrite scheduler_tick_eq by done.
  set (due := filter (λ kv, is_due (clock w) kv.2 = true) (map_to_list (messages w))).
  destruct (for_of_sends Fs due w) as (w' & Hrun & _ & _ & _ & _ & Hframe & Hsent).
  exists w'. split; [done|]. split.
  - intros id msg Hmsg Hst Ht HF.
    assert ((id, msg) ∈ due) as Hin.
    { apply due_list_spec. split; [done|]. by apply is_due_spec. }
    destruct (Hsent (due_list_NoDup w (clock w)) id msg) as [Hm He]; try done.
    { by apply (list_elem_of_fmap_2 fst) in Hin. }
    eexists. split; [exact Hm|]. by split.
  - intros id msg Hmsg Hnot. rewrite Hframe; [done|].
    intros Hin. apply list_elem_of_fmap in Hin as ([id' msg'] & -> & Hin).
    apply due_list_spec in Hin as [Hmsg' Hdue]. simpl in *.
    assert (msg' = msg) as -> by congruence.
    apply is_due_spec in Hdue as (Hst & t & Ht & Hle).
    specialize (Hnot Hst t Ht). lia.
Qed.

Lemma scheduler_tick_sends_due_witness :
  findMessage_error no_faults = None ∧
  ∃ w', scheduler_tick no_faults save_down_except_m6 office = (Return (), w') ∧
        (∃ msg', messages w' !! "m6" = Some msg' ∧ status msg' = Sent) ∧
        messages w' !! "m7" = Some future_message.
Proof.
  split; [reflexivity|].
  destruct (scheduler_tick_sends_due no_faults save_down_except_m6 office eq_refl)
    as (w' & Hrun & Hdue & Hnot).
  exists w'. split; [exact Hrun|]. split.
  - destruct (Hdue "m6" due_message eq_refl eq_refl) as (msg' & Hm & Hs & _).
    + exists 900. split; [reflexivity|]. simpl. lia.
    + apply reliable_no_faults.
    + by exists msg'.
  - apply Hnot; [reflexivity|].
    intros _ t Ht. simpl in Ht. injection Ht as <-. simpl. lia.
Defined.

(** Two messages are due in the example store. The send of "m0" fails at
    [msg.save()] and leaves it 'scheduled'; "m6" is sent all the same. *)
Example scheduler_tick_isolates_failure :
  let w' := (scheduler_tick no_faults save_down_except_m6 office).2 in
  status <$> messages w' !! "m0" = Some Scheduled ∧
  status <$> messages w' !! "m6" = Some Sent ∧
  status <$> messages w' !! "m7" = Some Scheduled ∧
  user <$> activitylogs w' = ["system"].
Proof. vm_compute. repeat split. Qed.

(** ** Creation *)

Lemma truthy_provided v : truthy v = true → v ≠ JUndefined ∧ v ≠ JNull.
Proof. by destruct v. Qed.

Lemma falsy_not_future Date_parse v now :
  0 ≤ now → Date_parse "" = None → truthy v = false →
  ¬ (v ≠ JUndefined ∧ v ≠ JNull ∧ ∃ t, Date_of Date_parse v = Some t ∧ now < t).
Proof.
  intros Hnow Hparse Hv (H1 & H2 & t & Ht & Hlt).
  destruct v as [| |b|n|s]; simpl in *; try done.
  - subst b. simplify_eq. lia.
  - apply bool_decide_eq_false in Hv. apply dec_stable in Hv. subst n.
    unfold TimeClip in Ht. simpl in Ht. simplify_eq. lia.
  - apply bool_decide_eq_false in Hv. apply dec_stable in Hv. subst s. congruence.
Qed.

Lemma initial_status_spec Date_parse v now :
  0 ≤ now → Date_parse "" = None →
  (initial_status Date_parse v now = Scheduled ↔
     v ≠ JUndefined ∧ v ≠ JNull ∧ ∃ t, Date_of Date_parse v = Some t ∧ now < t) ∧
  (initial_status Date_parse v now ≠ Scheduled →
   initial_status Date_parse v now = Draft).
Proof.
  intros Hnow Hparse. unfold initial_status.
  pose proof (falsy_not_future Date_parse v now Hnow Hparse) as Hfalsy.
  destruct (truthy v) eqn:Htr.
  - apply truthy_provided in Htr as [? ?].
    destruct (Date_of Date_parse v) as [t|].
    + destruct (decide (now < t)).
      * split; [|done]. split; [|done]. intros _. eauto.
      * split; [|done]. split; [done|]. intros (_ & _ & t' & [= <-] & ?). lia.
    + split; [|done]. split; [done|]. by intros (_ & _ & t' & ? & ?).
  - split; [|done]. split; [done|]. intros H. by apply Hfalsy in H.
Qed.

Lemma post_messages_run Date_parse castDate F req_user req_ip new_id req w :
  ∃ resp w',
    post_messages Date_parse castDate F req_user req_ip new_id req w = (Return resp, w') ∧
    ∀ id msg, resp = Created id msg →
      messages w' !! id = Some msg ∧
      status msg = initial_status Date_parse (req_scheduledAt req) (clock w).
Proof.
  unfold post_messages, initial_status.
  destruct (_ || _); [by eexists _, _|].
  unfold try_catch, save, logActivity, try_catch, ActivityLog_create, new_Date.
  unfold mbind, Async_bind, mret, Async_ret, guard_fault, throw, modify; simpl.
  destruct (truthy (req_scheduledAt req));
    [destruct (Date_of Date_parse (req_scheduledAt req)) as [t|];
       [destruct (decide (clock w < t))|]|];
    (destruct (castDate (req_scheduledAt req)) as [stored|]; simpl;
       [|by eexists _, _]);
    (destruct (req_targetGroupId req) as [tg|]; simpl;
       [destruct (castObjectId_error F tg); simpl; [by eexists _, _|]|]);
    (destruct (save_error F _); simpl; [by eexists _, _|]);
    destruct (log_error F _); simpl;
    (eexists _, _; split; [reflexivity|]; intros id msg [= <- <-]; simpl;
     split; [apply lookup_insert_eq|done]).
Qed.

(** C9: the create handler always answers, and a message it creates is
    'scheduled' exactly when [scheduledAt] was provided, is read by
    [new Date] as a valid instant, and that instant is strictly later than
    the current time; otherwise it is 'draft'. The clock reads a time at
    or after the epoch and [Date.parse("")] is [NaN]. *)
Theorem create_initial_status Date_parse castDate F req_user req_ip new_id req w :
  0 ≤ clock w →
  Date_parse "" = None →
  ∃ resp w',
    post_messages Date_parse castDate F req_user req_ip new_id req w = (Return resp, w') ∧
    ∀ id msg, resp = Created id msg →
      messages w' !! id = Some msg ∧
      (status msg = Scheduled ↔
         req_scheduledAt req ≠ JUndefined ∧ req_scheduledAt req ≠ JNull ∧
         ∃ t, Date_of Date_parse (req_scheduledAt req) = Some t ∧ clock w < t) ∧
      (status msg ≠ Scheduled → status msg = Draft).
Proof.
  intros Hnow Hparse.
  destruct (post_messages_run Date_parse castDate F req_user req_ip new_id req w)
    as (resp & w' & Hrun & Hcreated).
  exists resp, w'. split; [done|]. intros id msg Hresp.
  destruct (Hcreated id msg Hresp) as [Hstored ->]. split; [done|].
  by apply initial_status_spec.
Qed.

Lemma create_initial_status_witness :
  0 ≤ clock office ∧
  parse_2030 "" = None ∧
  ∃ msg w',
    post_messages parse_2030 cast_by_Date no_faults (Some "root") "10.0.0.1"
      "m8" scheduled_request office = (Return (Created "m8" msg), w') ∧
    status msg = Scheduled.
Proof.
  split; [simpl; lia|]. split; [reflexivity|].
  destruct (create_initial_status parse_2030 cast_by_Date no_faults (Some "root")
              "10.0.0.1" "m8" scheduled_request office)
    as (resp & w' & Hrun & Hspec); [simpl; lia|reflexivity|].
  vm_compute in Hrun. injection Hrun as <- <-.
  eexists _, _. split; [reflexivity|].
  eapply Hspec; [reflexivity|]. split; [done|]. split; [done|].
  exists 1893456000000. split; [reflexivity|]. simpl. lia.
Defined.

(** * Further properties *)

(** ** Relations every step of a computation keeps *)

Section Keeps.

Variable R : World → World → Prop.
Hypothesis R_refl : ∀ w, R w w.
Hypothesis R_trans : ∀ w1 w2 w3, R w1 w2 → R w2 w3 → R w1 w3.

Lemma keeps_ret {A} (a : A) : keeps R (mret a).
Proof. intros w. apply R_refl. Qed.

Lemma keeps_throw {A} e : keeps R (@throw A e).
Proof. intros w. apply R_refl. Qed.

Lemma keeps_bind {A B} (c : Async A) (k : A → Async B) :
  keeps R c → (∀ a, keeps R (k a)) → keeps R (c ≫= k).
Proof.
  intros Hc Hk w. unfold mbind, Async_bind.
  specialize (Hc w). destruct (c w) as [[a|e] w1]; simpl in *; [|done].
  eapply R_trans; [done|apply Hk].
Qed.

Lemma keeps_try {A} (c : Async A) h :
  keeps R c → (∀ e, keeps R (h e)) → keeps R (try_catch c h).
Proof.
  intros Hc Hh w. unfold try_catch.
  specialize (Hc w). destruct (c w) as [[a|e] w1]; simpl in *; [done|].
  eapply R_trans; [done|apply Hh].
Qed.

Lemma keeps_guard e : keeps R (guard_fault e).
Proof. destruct e; [apply keeps_throw|apply keeps_ret]. Qed.

Lemma keeps_get : keeps R get_world.
Proof. intros w. apply R_refl. Qed.

Lemma keeps_new_Date : keeps R new_Date.
Proof. intros w. apply R_refl. Qed.

Lemma keeps_modify f : (∀ w, R w (f w)) → keeps R (modify f).
Proof. intros Hf w. apply Hf. Qed.

End Keeps.

Ltac keeps_steps :=
  repeat first
    [ assumption
    | match goal with |- ∀ _, _ => intros ? end
    | apply keeps_ret
    | apply keeps_throw
    | apply keeps_guard
    | apply keeps_get
    | apply keeps_new_Date
    | apply keeps_bind
    | apply keeps_try
    | progress case_match ].

Lemma same_messages_refl w : same_messages w w.
Proof. by split. Qed.

Lemma same_messages_trans w1 w2 w3 :
  same_messages w1 w2 → same_messages w2 w3 → same_messages w1 w3.
Proof. intros [? ?] [? ?]. split; congruence. Qed.

Lemma keeps_messages_log F entry : keeps same_messages (ActivityLog_create F entry).
Proof.
  pose proof same_messages_refl. pose proof same_messages_trans.
  assert (keeps same_messages (modify (push_log entry)))
    by (apply keeps_modify; by intros w).
  unfold ActivityLog_create. keeps_steps.
Qed.

Lemma keeps_messages_dispatch F actor ip id msg a :
  keeps same_messages (dispatch F actor ip id msg a).
Proof.
  pose proof same_messages_refl as Hr. pose proof same_messages_trans as Ht.
  pose proof (keeps_messages_log F) as Hlog.
  assert (∀ mo, keeps same_messages (modify (push_mail mo))) as Hmail
    by (intros mo; apply keeps_modify; by intros w).
  unfold dispatch, dispatch_email, AdminUser_find, sendEmail, transporter_sendMail.
  keeps_steps.
Qed.

Lemma findById_cases F id w :
  (∃ e, Message_findById F id w = (Throw e, w)) ∨
  Message_findById F id w = (Return None, w) ∨
  ∃ msg, messages w !! id = Some msg ∧
         Message_findById F id w = (Return (Some (msg, populate w msg)), w).
Proof.
  unfold Message_findById.
  unfold mbind, Async_bind, mret, Async_ret, guard_fault, throw, get_world.
  destruct (findMessage_error F); simpl; [left; by eexists|].
  destruct (messages w !! id) as [msg|]; simpl.
  - destruct (targetGroup msg); [destruct (findGroup_error F)|]; simpl;
      [left; by eexists|right; right; by eexists..].
  - destruct (castObjectId_error F id); simpl; [left; by eexists|by right; left].
Qed.

Lemma finish_effect F actor ip id msg a w :
  let w' := (finish F actor ip id msg a w).2 in
  messages w' = messages w ∨
  messages w' = <[id := mark_sent msg (clock w) (length a)]> (messages w).
Proof.
  simpl. unfold finish, new_Date, save, ActivityLog_create.
  unfold mbind, Async_bind, mret, Async_ret, guard_fault, throw, modify; simpl.
  destruct (save_error F _); simpl; [by left|]. right.
  by destruct (log_error F _).
Qed.

(** What a send does to the message store, whatever rejects on the way. *)
Lemma send_effect F id actor ip w :
  let w' := (sendMessageById F id actor ip w).2 in
  messages w' = messages w ∨
  ∃ m n, messages w !! id = Some m ∧
         messages w' = <[id := mark_sent m (clock w) n]> (messages w).
Proof.
  intros w'. assert (w' = (sendMessageById F id actor ip w).2) as E by done.
  clearbody w'. revert E. unfold sendMessageById.
  unfold mbind at 1, Async_bind at 1.
  destruct (findById_cases F id w) as [[e ->]|[->|(msg & Hmsg & ->)]];
    [intros ->; by left..|]. rewrite Hmsg.
  unfold mbind at 1, Async_bind at 1.
  pose proof (resolve_frame F msg (populate w msg) w) as Hres.
  destruct (resolve F msg (populate w msg) w) as [[a|e] w0]; simpl in Hres; subst w0;
    [|intros ->; by left].
  unfold mbind at 1, Async_bind at 1.
  pose proof (keeps_messages_dispatch F actor ip id msg a w) as [Hm Hc].
  pose proof (finish_effect F actor ip id msg a) as Hfin.
  set (fin := finish F actor ip id msg a) in *.
  destruct (dispatch F actor ip id msg a w) as [[[]|e] w1]; simpl in *;
    [|intros ->; by left].
  intros ->. destruct (Hfin w1) as [E|E].
  - left. congruence.
  - right. exists msg, (length a). split; [done|]. by rewrite E, Hm, Hc.
Qed.

Lemma marks_sent_refl w : marks_sent w w.
Proof. split; [done|]. intros j. by left. Qed.

Lemma mark_sent_again m now n now' n' :
  mark_sent (mark_sent m now n) now' n' = mark_sent m now' n'.
Proof. reflexivity. Qed.

Lemma marks_sent_trans w1 w2 w3 :
  marks_sent w1 w2 → marks_sent w2 w3 → marks_sent w1 w3.
Proof.
  intros [Hc1 H1] [Hc2 H2]. split; [congruence|]. intros j.
  destruct (H1 j) as [E1|(m & n & Hm & E1)], (H2 j) as [E2|(m' & n' & Hm' & E2)].
  - left. congruence.
  - right. exists m', n'. split; congruence.
  - right. exists m, n. split; congruence.
  - right. exists m, n'. split; [done|].
    rewrite E2. rewrite E1 in Hm'. injection Hm' as <-.
    by rewrite mark_sent_again, Hc1.
Qed.

Lemma send_marks_sent F id actor ip w :
  marks_sent w (sendMessageById F id actor ip w).2.
Proof.
  split; [apply (within_send F id actor ip w)|]. intros j.
  destruct (send_effect F id actor ip w) as [E|(m & n & Hm & E)].
  - left. by rewrite E.
  - rewrite E. destruct (decide (j = id)) as [->|Hne].
    + right. exists m, n. split; [done|]. apply lookup_insert_eq.
    + left. by apply lookup_insert_ne.
Qed.

Lemma send_quietly_world Fs kv w :
  (send_quietly Fs kv w).2 = (sendMessageById (Fs kv.1) kv.1 "system" "scheduler" w).2.
Proof.
  unfold send_quietly, try_catch, mbind, Async_bind.
  by destruct (sendMessageById _ _ _ _ w) as [[r|e] w1].
Qed.

Lemma for_of_marks_sent Fs l w :
  marks_sent w (for_of l (send_quietly Fs) w).2.
Proof.
  revert w. induction l as [|kv l IH]; intros w; [apply marks_sent_refl|].
  simpl. unfold mbind, Async_bind.
  pose proof (send_quietly_returns Fs kv w) as Hr.
  pose proof (send_quietly_world Fs kv w) as Hw.
  destruct (send_quietly Fs kv w) as [r w1]. simpl in *. subst r w1.
  eapply marks_sent_trans; [apply send_marks_sent|apply IH].
Qed.

Lemma tick_marks_sent F0 Fs w : marks_sent w (scheduler_tick F0 Fs w).2.
Proof.
  destruct (findMessage_error F0) as [e|] eqn:HM.
  - unfold scheduler_tick, Message_find_due, new_Date. rewrite HM.
    apply marks_sent_refl.
  - rewrite scheduler_tick_eq by done. apply for_of_marks_sent.
Qed.

(** ** What sends and ticks can do to the stores *)

(** X1: whatever rejects during a send, it leaves the groups, the
    directory, the clock and every other message as they were, the message
    itself is either untouched or the loaded document marked as sent at the
    current time, and the audit log only grows. *)
Theorem send_changes_only_its_message F id actor ip w :
  let w' := (sendMessageById F id actor ip w).2 in
  usergroups w' = usergroups w ∧
  adminusers w' = adminusers w ∧
  clock w' = clock w ∧
  (∀ j, j ≠ id → messages w' !! j = messages w !! j) ∧
  (messages w' !! id = messages w !! id ∨
   ∃ m n, messages w !! id = Some m ∧
          messages w' !! id = Some (mark_sent m (clock w) n)) ∧
  activitylogs w `prefix_of` activitylogs w'.
Proof.
  intros w'. subst w'.
  destruct (within_send F id actor ip w) as [Hg Hu Ht Hc He Ho Hl].
  split_and!; try done.
  destruct (send_effect F id actor ip w) as [E|(m & n & Hm & E)].
  - left. by rewrite E.
  - right. exists m, n. split; [done|]. rewrite E. apply lookup_insert_eq.
Qed.

Lemma for_of_frame Fs l w :
  let w' := (for_of l (send_quietly Fs) w).2 in
  usergroups w' = usergroups w ∧ adminusers w' = adminusers w ∧
  ∀ j, j ∉ l.*1 → messages w' !! j = messages w !! j.
Proof.
  destruct (for_of_sends Fs l w) as (w' & Hrun & Hg & Hu & _ & _ & Hframe & _).
  simpl. by rewrite Hrun.
Qed.

(** X2: a tick never throws, whatever rejects underneath; it leaves the
    groups, the directory and the clock alone, and every message is
    afterwards what it was before or, if it was due, that document marked
    as sent at the time of the tick. No message appears or disappears. *)
Theorem tick_only_marks_due_messages F0 Fs w :
  ∃ w', scheduler_tick F0 Fs w = (Return (), w') ∧
        usergroups w' = usergroups w ∧
        adminusers w' = adminusers w ∧
        clock w' = clock w ∧
        ∀ j, messages w' !! j = messages w !! j ∨
             ∃ m n, messages w !! j = Some m ∧
                    is_due (clock w) m = true ∧
                    messages w' !! j = Some (mark_sent m (clock w) n).
Proof.
  pose proof (scheduler_tick_returns F0 Fs w) as Hret.
  destruct (scheduler_tick F0 Fs w) as [r w'] eqn:Hrun. simpl in Hret. subst r.
  exists w'. split; [done|].
  destruct (findMessage_error F0) as [e|] eqn:HM.
  - assert (w' = w) as ->.
    { revert Hrun. unfold scheduler_tick, Message_find_due, new_Date. rewrite HM.
      by intros [= <-]. }
    split_and!; try done. intros j. by left.
  - rewrite scheduler_tick_eq in Hrun by done.
    set (due := filter (λ kv, is_due (clock w) kv.2 = true) (map_to_list (messages w))) in *.
    destruct (for_of_frame Fs due w) as (Hg & Hu & Hframe).
    destruct (for_of_marks_sent Fs due w) as [Hc Hmarks].
    rewrite Hrun in Hg, Hu, Hframe, Hc, Hmarks. simpl in *.
    split_and!; try done. intros j.
    destruct (decide (j ∈ due.*1)) as [Hin|Hout]; [|left; by apply Hframe].
    destruct (Hmarks j) as [E|(m & n & Hm & E)]; [by left|].
    right. exists m, n. split; [done|]. split; [|done].
    apply list_elem_of_fmap in Hin as ([j' m'] & -> & Hin).
    apply due_list_spec in Hin as [Hm' Hdue]. simpl in *. congruence.
Qed.

(** ** The invariant on [sentAt] *)

Lemma mark_sent_ok m now n : sentAt_ok (mark_sent m now n).
Proof. unfold sentAt_ok. simpl. split; [by left|by eexists]. Qed.

Lemma marks_sent_consistent w w' :
  marks_sent w w' → sentAt_consistent w → sentAt_consistent w'.
Proof.
  intros [_ H] Hinv id m Hm.
  destruct (H id) as [E|(m0 & n & Hm0 & E)].
  - apply (Hinv id). congruence.
  - rewrite E in Hm. injection Hm as <-. apply mark_sent_ok.
Qed.

(** What the create handler does to the message store. *)
Lemma post_messages_effect Date_parse castDate F req_user req_ip new_id req w :
  let w' := (post_messages Date_parse castDate F req_user req_ip new_id req w).2 in
  clock w' = clock w ∧
  (messages w' = messages w ∨
   ∃ msg, messages w' = <[new_id := msg]> (messages w) ∧
          sentAt msg = None ∧
          (status msg = Draft ∨ status msg = Scheduled)).
Proof.
  simpl. unfold post_messages.
  destruct (_ || _); [split; [done|by left]|].
  unfold try_catch, save, logActivity, try_catch, ActivityLog_create, new_Date.
  unfold mbind, Async_bind, mret, Async_ret, guard_fault, throw, modify; simpl.
  destruct (truthy (req_scheduledAt req));
    [destruct (Date_of Date_parse (req_scheduledAt req)) as [t|];
       [destruct (decide (clock w < t))|]|];
    (destruct (castDate (req_scheduledAt req)) as [stored|]; simpl;
       [|split; [done|by left]]);
    (destruct (req_targetGroupId req) as [tg|]; simpl;
       [destruct (castObjectId_error F tg); simpl; [split; [done|by left]|]|]);
    (destruct (save_error F _); simpl; [split; [done|by left]|]);
    destruct (log_error F _); simpl;
    (split; [done|]; right; eexists; split; [reflexivity|]; simpl; auto).
Qed.

Lemma post_messages_consistent Date_parse castDate F req_user req_ip new_id req w :
  sentAt_consistent w →
  sentAt_consistent (post_messages Date_parse castDate F req_user req_ip new_id req w).2.
Proof.
  intros Hinv.
  destruct (post_messages_effect Date_parse castDate F req_user req_ip new_id req w)
    as [_ [E|(msg & E & Hat & Hst)]]; intros id m; rewrite E; [apply Hinv|].
  destruct (decide (id = new_id)) as [->|Hne].
  - rewrite lookup_insert_eq. intros [= <-]. unfold sentAt_ok. rewrite Hat.
    split; [by intros [? ?]|]. intros [?|?]; destruct Hst; congruence.
  - rewrite lookup_insert_ne by done. apply Hinv.
Qed.

Lemma post_messages_send_world F req_user req_ip id w :
  (post_messages_send F req_user req_ip id w).2
  = (sendMessageById F id (acting_user req_user) req_ip w).2.
Proof.
  unfold post_messages_send, try_catch, mbind, Async_bind.
  by destruct (sendMessageById _ _ _ _ w) as [[[r|]|e] w1].
Qed.

Lemma run_operation_consistent op w :
  sentAt_consistent w → sentAt_consistent (run_operation op w).
Proof.
  intros Hinv. destruct op; simpl.
  - eapply marks_sent_consistent; [apply send_marks_sent|done].
  - eapply marks_sent_consistent; [apply tick_marks_sent|done].
  - by apply post_messages_consistent.
  - rewrite post_messages_send_world.
    eapply marks_sent_consistent; [apply send_marks_sent|done].
  - done.
Qed.

(** X3: the data model's invariant "[sentAt] is set exactly when the
    status is 'sent' or 'failed'" survives every sequence of sends (direct
    or through the route), scheduler ticks, creations and clock changes,
    whatever rejects during them. *)
Theorem sentAt_invariant_reachable ops w :
  sentAt_consistent w → sentAt_consistent (run_operations ops w).
Proof.
  revert w. induction ops as [|op ops IH]; intros w Hinv; [done|].
  simpl. apply IH. by apply run_operation_consistent.
Qed.

Lemma office_consistent : sentAt_consistent office.
Proof.
  intros id m Hm. apply elem_of_map_to_list in Hm.
  vm_compute in Hm. unfold sentAt_ok.
  repeat (apply elem_of_cons in Hm as [Hm|Hm];
          [injection Hm as -> ->; simpl; split;
             [try (by intros [? ?]); by left|intros [?|?]; try done; by eexists]|]).
  by apply elem_of_nil in Hm.
Qed.

Lemma sentAt_invariant_reachable_witness :
  sentAt_consistent office ∧
  sentAt_consistent
    (run_operations
       [OpTick no_faults save_down_except_m6; OpClock 3000;
        OpSend audit_down "m1" "admin" "10.0.0.1";
        OpCreate parse_2030 cast_by_Date no_faults None "10.0.0.1" "m8" scheduled_request;
        OpSendRoute relay_down (Some "root") "10.0.0.1" "m8"]
       office).
Proof.
  split; [apply office_consistent|].
  apply sentAt_invariant_reachable, office_consistent.
Defined.

(** ** The life of a stored message *)

Lemma marks_sent_lookup w w' j :
  marks_sent w w' →
  match messages w !! j with
  | Some m => ∃ m', messages w' !! j = Some m' ∧
                    (m' = m ∨ ∃ now n, m' = mark_sent m now n)
  | None => messages w' !! j = None
  end.
Proof.
  intros [_ H]. destruct (H j) as [E|(m & n & Hm & E)].
  - rewrite E. destruct (messages w !! j); eauto.
  - rewrite Hm. eauto 6.
Qed.

Lemma run_operation_lookup op w j :
  send_like op →
  match messages w !! j with
  | Some m => ∃ m', messages (run_operation op w) !! j = Some m' ∧
                    (m' = m ∨ ∃ now n, m' = mark_sent m now n)
  | None => messages (run_operation op w) !! j = None
  end.
Proof.
  intros Hop. destruct op; simpl in *; try done.
  - apply marks_sent_lookup, send_marks_sent.
  - apply marks_sent_lookup, tick_marks_sent.
  - rewrite post_messages_send_world. apply marks_sent_lookup, send_marks_sent.
  - destruct (messages w !! j); eauto.
Qed.

(** X4: across any sequence of sends, ticks and clock changes, whatever
    rejects during them, no message is created or deleted, a stored
    message keeps its title, body, recipients, channel, target group and
    schedule (it is the original document, or that document marked as
    sent), and a message that is 'sent' or 'failed' never goes back to
    'draft' or 'scheduled'. *)
Theorem stored_message_only_becomes_sent ops w j :
  Forall send_like ops →
  match messages w !! j with
  | Some m =>
      ∃ m', messages (run_operations ops w) !! j = Some m' ∧
            (m' = m ∨ ∃ now n, m' = mark_sent m now n) ∧
            (status m = Sent ∨ status m = Failed →
             status m' = Sent ∨ status m' = Failed)
  | None => messages (run_operations ops w) !! j = None
  end.
Proof.
  revert w. induction ops as [|op ops IH]; intros w Hops.
  - simpl. destruct (messages w !! j) as [m|]; [|done].
    exists m. split; [done|]. split; [by left|done].
  - apply Forall_cons in Hops as [Hop Hops]. simpl.
    pose proof (run_operation_lookup op w j Hop) as H1.
    specialize (IH (run_operation op w) Hops).
    destruct (messages w !! j) as [m|].
    + destruct H1 as (m1 & Hm1 & Hev1). rewrite Hm1 in IH.
      destruct IH as (m' & Hm' & Hev & Hterm). exists m'. split; [done|].
      assert (m' = m ∨ ∃ now n, m' = mark_sent m now n) as Hev'.
      { destruct Hev1 as [->|(now1 & n1 & ->)]; [done|].
        destruct Hev as [->|(now & n & ->)]; right; eauto. }
      split; [done|]. intros Ht.
      destruct Hev' as [->|(now & n & ->)]; [done|by left].
    + by rewrite H1 in IH.
Qed.

Lemma stored_message_only_becomes_sent_witness :
  Forall send_like
    [OpSend no_faults "m4" "admin" "10.0.0.1"; OpClock 5000;
     OpTick no_faults save_down_except_m6] ∧
  ∃ m', messages
          (run_operations
             [OpSend no_faults "m4" "admin" "10.0.0.1"; OpClock 5000;
              OpTick no_faults save_down_except_m6] office) !! "m4" = Some m' ∧
        (status m' = Sent ∨ status m' = Failed).
Proof.
  assert (Forall send_like
            [OpSend no_faults "m4" "admin" "10.0.0.1"; OpClock 5000;
             OpTick no_faults save_down_except_m6]) as Hops
    by (repeat constructor).
  split; [exact Hops|].
  pose proof (stored_message_only_becomes_sent _ office "m4" Hops) as H.
  change (messages office !! "m4") with (Some already_sent) in H.
  destruct H as (m' & Hm' & _ & Hterm).
  exists m'. split; [exact Hm'|]. apply Hterm. by left.
Defined.

(** ** Failures on the way of a send *)

Lemma resolve_thrown F msg gid g w err :
  findGroup_error F = None →
  usergroups w !! gid = Some g →
  project_allowed (filters g) ≠ ∅ →
  findUsers_error F (ByFields (project_allowed (filters g))) = Some err →
  resolve F msg (Some gid) w = (Throw err, w).
Proof.
  intros HG Hg Hq HU. unfold resolve, UserGroup_findById, AdminUser_find.
  rewrite HG. unfold mbind, Async_bind, mret, Async_ret, get_world; simpl.
  rewrite Hg. apply has_keys_true in Hq. rewrite (has_keys_project _ Hq), Hq.
  by rewrite HU.
Qed.

(** X5: when the directory rejects the query built from the group's
    filters, the send rejects with that error and nothing has happened:
    the message keeps its status, nothing is mailed and nothing is
    audited. *)
Theorem send_resolution_failure F w id msg gid g actor ip err :
  findMessage_error F = None →
  findGroup_error F = None →
  messages w !! id = Some msg →
  targetGroup msg = Some gid →
  usergroups w !! gid = Some g →
  project_allowed (filters g) ≠ ∅ →
  findUsers_error F (ByFields (project_allowed (filters g))) = Some err →
  sendMessageById F id actor ip w = (Throw err, w).
Proof.
  intros HM HG Hmsg Htg Hg Hq HU. unfold sendMessageById.
  erewrite bind_Return; [|by apply findById_found].
  rewrite (populate_present w msg gid g) by done.
  unfold mbind at 1, Async_bind at 1.
  by rewrite (resolve_thrown F msg gid g w err).
Qed.

Lemma send_resolution_failure_witness :
  messages office !! "m1" = Some to_moderators ∧
  usergroups office !! "g1" = Some moderators ∧
  project_allowed (filters moderators) ≠ ∅ ∧
  sendMessageById directory_down "m1" "admin" "10.0.0.1" office
  = (Throw "adminusers unavailable", office).
Proof.
  assert (project_allowed (filters moderators) ≠ ∅) as Hq.
  { intros H. assert (project_allowed (filters moderators) !! "role" = None) as Hn
      by (by rewrite H).
    vm_compute in Hn. discriminate. }
  split; [reflexivity|]. split; [reflexivity|]. split; [exact Hq|].
  apply (send_resolution_failure directory_down office "m1" to_moderators "g1"
           moderators "admin" "10.0.0.1" "adminusers unavailable"
           eq_refl eq_refl eq_refl eq_refl eq_refl Hq eq_refl).
Defined.




Lemma log_thrown F entry w err :
  log_error F entry = Some err →
  ActivityLog_create F entry w = (Throw err, w).
Proof. intros H. unfold ActivityLog_create. by rewrite H. Qed.

(** X7: when the transport throws and the audit sink then rejects the
    'Send Message Error' entry, the send rejects with the sink's error
    before the status update: the mail was handed to the transport, but
    the message is stored as before and nothing is audited. *)
Theorem send_fails_when_error_cannot_be_logged F w id msg actor ip err err' :
  findMessage_error F = None →
  findGroup_error F = None →
  (∀ q, findUsers_error F q = None) →
  messages w !! id = Some msg →
  channel msg = Email →
  emails_of w (audience w msg) ≠ [] →
  sendMail_error F (message_mail w msg (emails_of w (audience w msg))) = Some err →
  log_error F (send_error_entry actor ip id err) = Some err' →
  ∃ w',
    sendMessageById F id actor ip w = (Throw err', w') ∧
    messages w' = messages w ∧
    activitylogs w' = activitylogs w ∧
    sentmail w' = sentmail w ++ [message_mail w msg (emails_of w (audience w msg))].
Proof.
  intros HM HG HU Hmsg Hc He HT HL. eexists.
  rewrite (send_resolved _ _ _ _ _ msg) by done.
  erewrite bind_Throw;
    [|rewrite (dispatch_email_thrown _ _ _ _ _ _ _ err) by done; by apply log_thrown].
  done.
Qed.

Lemma send_fails_when_error_cannot_be_logged_witness :
  messages office !! "m1" = Some to_moderators ∧
  channel to_moderators = Email ∧
  emails_of office (audience office to_moderators) ≠ [] ∧
  ∃ w', sendMessageById relay_and_audit_down "m1" "admin" "10.0.0.1" office
        = (Throw "activitylogs unavailable", w') ∧
        messages w' !! "m1" = Some to_moderators ∧
        mail_to <$> sentmail w' = ["alice@example.com"].
Proof.
  assert (emails_of office (audience office to_moderators) ≠ []) as He
    by (vm_compute; discriminate).
  split; [reflexivity|]. split; [reflexivity|]. split; [exact He|].
  destruct (send_fails_when_error_cannot_be_logged relay_and_audit_down office "m1"
              to_moderators "admin" "10.0.0.1" "ECONNREFUSED" "activitylogs unavailable"
              eq_refl eq_refl (λ _, eq_refl) eq_refl eq_refl He eq_refl eq_refl)
    as (w' & Hs & Hm & _ & Hmail).
  exists w'. split; [exact Hs|]. split; [by rewrite Hm|].
  rewrite Hmail. reflexivity.
Defined.

Lemma after_dispatch_messages F actor ip id msg a w :
  messages (after_dispatch F actor ip id msg a w) = messages w.
Proof. unfold after_dispatch. by repeat case_match. Qed.

(** X8: when [msg.save()] rejects, the send rejects with that error after
    the dispatch: the transport has been called as for a successful send,
    yet the message is stored as before (a due message stays due) and no
    'Send Message' entry is written. *)
Theorem send_save_failure_after_dispatch F w id msg actor ip err :
  findMessage_error F = None →
  findGroup_error F = None →
  (∀ q, findUsers_error F q = None) →
  (∀ e, log_error F e = None) →
  messages w !! id = Some msg →
  save_error F (mark_sent msg (clock w) (length (audience w msg))) = Some err →
  ∃ w',
    sendMessageById F id actor ip w = (Throw err, w') ∧
    messages w' = messages w ∧
    sentmail w' = sentmail w ++ transport_calls w msg (audience w msg) ∧
    ∀ e, e ∈ activitylogs w' → action e = "Send Message" → e ∈ activitylogs w.
Proof.
  intros HM HG HU HL Hmsg HS. eexists.
  rewrite (send_resolved _ _ _ _ _ msg) by done.
  erewrite bind_Return; [|by apply dispatch_returns].
  unfold finish, new_Date, save.
  unfold mbind at 1, Async_bind at 1. simpl.
  rewrite after_dispatch_clock, HS. simpl.
  split; [reflexivity|]. split; [apply after_dispatch_messages|].
  split; [apply after_dispatch_sentmail|].
  intros e. unfold after_dispatch. repeat case_match; try done.
  simpl. rewrite elem_of_app, list_elem_of_singleton. intros [? | ->]; [done|].
  by intros [=].
Qed.

Lemma send_save_failure_after_dispatch_witness :
  messages office !! "m4" = Some already_sent ∧
  save_error save_down
    (mark_sent already_sent (clock office) (length (audience office already_sent)))
  = Some "messages unavailable" ∧
  ∃ w', sendMessageById save_down "m4" "admin" "10.0.0.1" office
        = (Throw "messages unavailable", w') ∧
        messages w' !! "m4" = Some already_sent ∧
        mail_to <$> sentmail w' = ["alice@example.com"].
Proof.
  split; [reflexivity|]. split; [reflexivity|].
  destruct (send_save_failure_after_dispatch save_down office "m4" already_sent
              "admin" "10.0.0.1" "messages unavailable"
              eq_refl eq_refl (λ _, eq_refl) (λ _, eq_refl) eq_refl eq_refl)
    as (w' & Hs & Hm & Hmail & _).
  exists w'. split; [exact Hs|]. split; [by rewrite Hm|].
  rewrite Hmail. reflexivity.
Defined.

(** ** Sizes and order of the audience *)

Lemma length_omap_le {A B} (f : A → option B) (l : list A) :
  (length (omap f l) ≤ length l)%nat.
Proof.
  induction l as [|x l IH]; csimpl; [done|].
  destruct (f x); csimpl; lia.
Qed.

Lemma emails_of_length w a :
  NoDup (username <$> adminusers w) →
  (length (emails_of w a) ≤ length a)%nat.
Proof.
  intros Hnd. unfold emails_of. etrans; [apply length_omap_le|]. simpl.
  rewrite <- (length_fmap username).
  apply submseteq_length, NoDup_submseteq.
  - eapply sublist_NoDup; [exact Hnd|]. apply fmap_sublist, sublist_filter.
  - intros x Hx. apply list_elem_of_fmap in Hx as (u & -> & Hu).
    by apply list_elem_of_filter in Hu as [? _].
Qed.

(** X9: when usernames are unique in the directory, the number of
    addresses an email send writes to never exceeds the size of the
    resolved audience, the number reported as [recipientsCount]. *)
Theorem send_addresses_within_count F w id msg actor ip :
  reliable F →
  messages w !! id = Some msg →
  NoDup (username <$> adminusers w) →
  ∃ a w',
    resolve F msg (populate w msg) w = (Return a, w) ∧
    sendMessageById F id actor ip w
    = (Return (Some {| res_recipientsCount := length a; messageId := id |}), w') ∧
    sentmail w' = sentmail w ++ transport_calls w msg a ∧
    (length (emails_of w a) ≤ length a)%nat.
Proof.
  intros HF Hmsg Hnd. exists (audience w msg). eexists.
  split; [by apply resolve_reliable|]. split; [by apply send_returns|].
  split; [simpl; apply after_dispatch_sentmail|]. by apply emails_of_length.
Qed.

Lemma send_addresses_within_count_witness :
  reliable no_faults ∧
  messages office !! "m1" = Some to_moderators ∧
  NoDup (username <$> adminusers office) ∧
  ∃ a, resolve no_faults to_moderators (populate office to_moderators) office
       = (Return a, office) ∧
       (length (emails_of office a) ≤ length a)%nat.
Proof.
  assert (NoDup (username <$> adminusers office)) as Hnd.
  { simpl. repeat (constructor; [set_solver|]). constructor. }
  split; [apply reliable_no_faults|]. split; [reflexivity|]. split; [exact Hnd|].
  destruct (send_addresses_within_count no_faults office "m1" to_moderators
              "admin" "10.0.0.1" reliable_no_faults eq_refl Hnd)
    as (a & w' & Ha & _ & _ & Hle).
  exists a. split; [exact Ha|exact Hle].
Defined.

Lemma Set_from_NoDup_id (seen l : list string) :
  NoDup l → (∀ x, x ∈ l → x ∉ seen) → Set_from seen l = l.
Proof.
  revert seen. induction l as [|x l IH]; intros seen Hnd Hdis; [done|].
  apply NoDup_cons in Hnd as [Hx Hnd]. simpl.
  rewrite decide_False by (apply Hdis; by left). f_equal.
  apply IH; [done|]. intros y Hy. rewrite not_elem_of_cons. split.
  - intros ->. done.
  - apply Hdis. by right.
Qed.

(** X10: a message without a target group whose recipient list has no
    duplicate resolves to that very list, in the same order. *)
Theorem resolve_keeps_recipient_order F w msg :
  targetGroup msg = None →
  NoDup (recipients msg) →
  resolve F msg (populate w msg) w = (Return (recipients msg), w).
Proof.
  intros Hno Hnd. rewrite populate_no_target by done.
  rewrite resolve_unpopulated. unfold Array_from_Set.
  rewrite Set_from_NoDup_id; [done|done|]. intros x _. apply not_elem_of_nil.
Qed.

Lemma resolve_keeps_recipient_order_witness :
  targetGroup to_three = None ∧
  NoDup (recipients to_three) ∧
  resolve directory_down to_three (populate office to_three) office
  = (Return ["zoe"; "alice"; "mia"], office).
Proof.
  assert (NoDup (recipients to_three)) as Hnd.
  { simpl. repeat (constructor; [set_solver|]). constructor. }
  split; [reflexivity|]. split; [exact Hnd|].
  apply (resolve_keeps_recipient_order directory_down office to_three eq_refl Hnd).
Defined.

(** ** Consecutive ticks *)

(** X11: after a tick during which the stores and the audit sink answer
    for every message, no stored message is due any more at that time, and
    a further tick at the same time changes nothing, whatever its
    faults. *)
Theorem tick_leaves_nothing_due F0 Fs w :
  findMessage_error F0 = None →
  (∀ id, reliable (Fs id)) →
  let w' := (scheduler_tick F0 Fs w).2 in
  (∀ id m, messages w' !! id = Some m → is_due (clock w') m = false) ∧
  ∀ F0' Fs', scheduler_tick F0' Fs' w' = (Return (), w').
Proof.
  intros HM HF w'. subst w'. rewrite scheduler_tick_eq by done.
  set (due := filter (λ kv, is_due (clock w) kv.2 = true) (map_to_list (messages w))).
  destruct (for_of_sends Fs due w) as (w' & Hrun & _ & _ & Hc & _ & Hframe & Hsent).
  rewrite Hrun. simpl.
  assert (∀ id m, messages w' !! id = Some m → is_due (clock w') m = false) as Hnone.
  { intros id m Hm. rewrite Hc.
    destruct (decide (id ∈ due.*1)) as [Hin|Hout].
    - pose proof Hin as Hin'.
      apply list_elem_of_fmap in Hin' as ([id' m0] & -> & Hin').
      apply due_list_spec in Hin' as [Hm0 _]. simpl in *.
      destruct (Hsent (due_list_NoDup w (clock w)) id' m0 Hin Hm0 (HF id')) as [E _].
      rewrite E in Hm. injection Hm as <-. done.
    - rewrite Hframe in Hm by done.
      destruct (is_due (clock w) m) eqn:Hdue; [|done].
      exfalso. apply Hout.
      apply (list_elem_of_fmap_2 fst _ (id, m)). by apply due_list_spec. }
  split; [done|]. intros F0' Fs'.
  destruct (findMessage_error F0') as [e|] eqn:HM'.
  - unfold scheduler_tick, Message_find_due, new_Date. by rewrite HM'.
  - rewrite scheduler_tick_eq by done.
    assert (filter (λ kv, is_due (clock w') kv.2 = true) (map_to_list (messages w')) = [])
      as ->; [|done].
    apply elem_of_nil_inv. intros [id m] Hin.
    apply due_list_spec in Hin as [Hm Hdue]. rewrite (Hnone id m Hm) in Hdue. done.
Qed.

Lemma tick_leaves_nothing_due_witness :
  findMessage_error no_faults = None ∧
  (∀ id : string, reliable ((λ _, relay_down) id)) ∧
  let w' := (scheduler_tick no_faults (λ _, relay_down) office).2 in
  scheduler_tick no_faults (λ _, no_faults) w' = (Return (), w').
Proof.
  split; [reflexivity|]. split; [intros _; apply reliable_relay_down|].
  apply (tick_leaves_nothing_due no_faults (λ _, relay_down) office eq_refl
           (λ _, reliable_relay_down)).
Defined.

(** ** The scheduler's timer *)

Lemma scheduler_call_inv (base : gmap nat Z) c t :
  handles_fresh t →
  match schedulerTimer t with
  | None => intervals t = base
  | Some h => base !! h = None ∧ ∃ p, intervals t = <[h := p]> base
  end →
  handles_fresh (scheduler_call c t) ∧
  match schedulerTimer (scheduler_call c t) with
  | None => intervals (scheduler_call c t) = base
  | Some h => base !! h = None ∧ ∃ p, intervals (scheduler_call c t) = <[h := p]> base
  end.
Proof.
  intros Hfresh Hinv.
  assert (intervals (clear_schedulerTimer t) = base) as Hclear.
  { unfold clear_schedulerTimer. destruct (schedulerTimer t) as [h|]; [|done].
    destruct Hinv as (Hb & p & Hi). simpl. rewrite Hi, delete_insert_eq.
    by apply delete_id. }
  assert (next_handle (clear_schedulerTimer t) = next_handle t) as Hnext.
  { unfold clear_schedulerTimer. by destruct (schedulerTimer t). }
  assert (∀ h, is_Some (base !! h) → (h < next_handle t)%nat) as Hbase.
  { intros h Hh. apply Hfresh. destruct (schedulerTimer t) as [h0|].
    - destruct Hinv as (Hb & p & Hi). rewrite Hi.
      rewrite lookup_insert_ne; [done|]. intros ->. rewrite Hb in Hh. by destruct Hh.
    - by rewrite Hinv. }
  destruct c as [intervalMs|]; simpl.
  - unfold startScheduler. simpl. rewrite Hclear, Hnext. split.
    + intros h Hh. simpl in Hh |- *.
      destruct (decide (h = next_handle t)) as [->|Hne]; [lia|].
      rewrite lookup_insert_ne in Hh by done. apply Hbase in Hh. lia.
    + split; [|by eexists].
      destruct (base !! next_handle t) eqn:E; [|done].
      assert (next_handle t < next_handle t)%nat by (apply Hbase; by rewrite E). lia.
  - unfold stopScheduler, handles_fresh. simpl. rewrite Hclear, Hnext.
    split; [|done]. intros h Hh. by apply Hbase.
Qed.

Lemma scheduler_calls_inv (base : gmap nat Z) cs t :
  handles_fresh t →
  match schedulerTimer t with
  | None => intervals t = base
  | Some h => base !! h = None ∧ ∃ p, intervals t = <[h := p]> base
  end →
  handles_fresh (scheduler_calls cs t) ∧
  match schedulerTimer (scheduler_calls cs t) with
  | None => intervals (scheduler_calls cs t) = base
  | Some h => base !! h = None ∧ ∃ p, intervals (scheduler_calls cs t) = <[h := p]> base
  end.
Proof.
  revert t. induction cs as [|c cs IH]; intros t Hfresh Hinv; [done|].
  simpl. destruct (scheduler_call_inv base c t Hfresh Hinv) as [Hf Hi].
  by apply IH.
Qed.

(** X12: starting from a process whose scheduler is not running, after
    any sequence of [startScheduler] and [stopScheduler] calls the timers
    of the rest of the process are untouched and at most one timer of the
    scheduler is active: starting twice replaces the timer, it does not
    stack a second one. *)
Theorem scheduler_never_stacks_timers cs t :
  handles_fresh t →
  schedulerTimer t = None →
  let t' := scheduler_calls cs t in
  match schedulerTimer t' with
  | None => intervals t' = intervals t
  | Some h => intervals t !! h = None ∧ ∃ p, intervals t' = <[h := p]> (intervals t)
  end.
Proof.
  intros Hfresh Hnone. simpl.
  apply (scheduler_calls_inv (intervals t) cs t Hfresh). by rewrite Hnone.
Qed.

Lemma fresh_process_handles : handles_fresh fresh_process.
Proof.
  intros h [p Hp]. simpl in *.
  apply lookup_singleton_Some in Hp as [<- _]. lia.
Qed.

Lemma scheduler_never_stacks_timers_witness :
  handles_fresh fresh_process ∧
  schedulerTimer fresh_process = None ∧
  ∃ h p, intervals (scheduler_calls [Start None; Start (Some 1000); Start None]
                      fresh_process)
         = <[h := p]> (intervals fresh_process).
Proof.
  split; [apply fresh_process_handles|]. split; [reflexivity|].
  pose proof (scheduler_never_stacks_timers
                [Start None; Start (Some 1000); Start None] fresh_process
                fresh_process_handles eq_refl) as H.
  simpl in H. destruct H as (_ & p & Hi).
  exists 3%nat, p. exact Hi.
Defined.

(** X13: whatever calls came before, a [startScheduler] leaves exactly one
    scheduler timer beside the timers of the rest of the process, with the
    delay Node gives it: the requested one (60000 ms by default), or 1 ms
    when the requested delay is below 1 or above 2147483647; a
    [stopScheduler] leaves none and clears [schedulerTimer]. *)
Theorem scheduler_last_call_decides cs t :
  handles_fresh t →
  schedulerTimer t = None →
  (∀ intervalMs,
     let t' := scheduler_calls (cs ++ [Start intervalMs]) t in
     let delay := default 60000 intervalMs in
     ∃ h, schedulerTimer t' = Some h ∧
          intervals t !! h = None ∧
          intervals t'
          = <[h := if decide (1 ≤ delay ≤ 2147483647) then delay else 1]>
              (intervals t)) ∧
  (let t' := scheduler_calls (cs ++ [Stop]) t in
   schedulerTimer t' = None ∧ intervals t' = intervals t).
Proof.
  intros Hfresh Hnone.
  destruct (scheduler_calls_inv (intervals t) cs t Hfresh) as [Hf Hinv];
    [by rewrite Hnone|].
  set (t1 := scheduler_calls cs t) in *.
  assert (intervals (clear_schedulerTimer t1) = intervals t) as Hclear.
  { unfold clear_schedulerTimer. destruct (schedulerTimer t1) as [h|]; [|done].
    destruct Hinv as (Hb & p & Hi). simpl. rewrite Hi, delete_insert_eq.
    by apply delete_id. }
  assert (next_handle (clear_schedulerTimer t1) = next_handle t1) as Hnext.
  { unfold clear_schedulerTimer. by destruct (schedulerTimer t1). }
  split.
  - intros intervalMs. unfold scheduler_calls. rewrite foldl_app. simpl.
    fold (scheduler_calls cs t). fold t1.
    exists (next_handle t1). unfold startScheduler. simpl.
    rewrite Hclear, Hnext. split; [done|]. split; [|done].
    destruct (intervals t !! next_handle t1) eqn:E; [|done].
    assert (next_handle t1 < next_handle t1)%nat; [|lia].
    apply Hf. destruct (schedulerTimer t1) as [h0|].
    + destruct Hinv as (Hb & p & Hi). rewrite Hi.
      rewrite lookup_insert_ne; [by rewrite E|]. intros ->. congruence.
    + by rewrite Hinv, E.
  - unfold scheduler_calls. rewrite foldl_app. simpl.
    fold (scheduler_calls cs t). fold t1.
    unfold stopScheduler. simpl. by rewrite Hclear.
Qed.

Lemma scheduler_last_call_decides_witness :
  handles_fresh fresh_process ∧
  schedulerTimer fresh_process = None ∧
  (∃ h, intervals (scheduler_calls ([Start (Some 1000); Stop] ++ [Start (Some 0)])
                     fresh_process)
        = <[h := 1]> (intervals fresh_process)) ∧
  (∃ h, intervals (scheduler_calls ([Start (Some 1000)] ++ [Start (Some 250)])
                     fresh_process)
        = <[h := 250]> (intervals fresh_process)) ∧
  intervals (scheduler_calls ([Start (Some 1000); Start None] ++ [Stop]) fresh_process)
  = intervals fresh_process.
Proof.
  split; [apply fresh_process_handles|]. split; [reflexivity|].
  split; [|split].
  - destruct (scheduler_last_call_decides [Start (Some 1000); Stop] fresh_process
                fresh_process_handles eq_refl) as [Hstart _].
    destruct (Hstart (Some 0)) as (h & _ & _ & Hi). exists h. exact Hi.
  - destruct (scheduler_last_call_decides [Start (Some 1000)] fresh_process
                fresh_process_handles eq_refl) as [Hstart _].
    destruct (Hstart (Some 250)) as (h & _ & _ & Hi). exists h. exact Hi.
  - apply (scheduler_last_call_decides [Start (Some 1000); Start None] fresh_process
             fresh_process_handles eq_refl).
Defined.

(** ** The send route *)

(** X14: with the message store answering, [POST /messages/:id/send]
    answers 404 for a well-formed id the store does not hold and 500 for an
    id that cannot be cast to an ObjectId, in both cases without changing
    anything (no audit entry, no mail); for a stored message and answering
    collaborators it answers 200 with the size of the resolved audience,
    the message is persisted as 'sent' and the last audit entry names the
    acting user. *)
Theorem send_route_replies F req_user req_ip id w :
  findMessage_error F = None →
  match messages w !! id with
  | None =>
      post_messages_send F req_user req_ip id w
      = (Return (match castObjectId_error F id with
                 | None => Failure 404 "Message not found or failed to send"
                 | Some _ => Failure 500 "Failed to send message"
                 end), w)
  | Some msg =>
      reliable F →
      ∃ w', post_messages_send F req_user req_ip id w
            = (Return (Answer 200 (length (audience w msg))), w') ∧
            status <$> messages w' !! id = Some Sent ∧
            user <$> last (activitylogs w') = Some (acting_user req_user)
  end.
Proof.
  intros HM. unfold post_messages_send.
  destruct (messages w !! id) as [msg|] eqn:Hmsg.
  - intros HF. eexists. unfold try_catch.
    erewrite bind_Return; [|by apply send_returns]. simpl.
    split; [reflexivity|]. simpl. rewrite lookup_insert_eq. split; [done|].
    by rewrite last_snoc.
  - unfold try_catch, mbind, Async_bind.
    rewrite (send_not_found F id _ req_ip w HM Hmsg).
    by destruct (castObjectId_error F id).
Qed.

Lemma send_route_replies_witness :
  findMessage_error nope_is_malformed = None ∧
  reliable nope_is_malformed ∧
  post_messages_send nope_is_malformed None "10.0.0.1" "65f0c0ffee0123456789abcd" office
  = (Return (Failure 404 "Message not found or failed to send"), office) ∧
  post_messages_send nope_is_malformed None "10.0.0.1" "nope" office
  = (Return (Failure 500 "Failed to send message"), office) ∧
  ∃ w', post_messages_send nope_is_malformed (Some "root") "10.0.0.1" "m1" office
        = (Return (Answer 200 3%nat), w') ∧
        status <$> messages w' !! "m1" = Some Sent ∧
        user <$> last (activitylogs w') = Some "root".
Proof.
  assert (reliable nope_is_malformed) as HF by (by repeat split).
  split; [reflexivity|]. split; [exact HF|]. split; [|split].
  - exact (send_route_replies nope_is_malformed None "10.0.0.1"
             "65f0c0ffee0123456789abcd" office eq_refl).
  - exact (send_route_replies nope_is_malformed None "10.0.0.1" "nope" office eq_refl).
  - exact (send_route_replies nope_is_malformed (Some "root") "10.0.0.1" "m1" office
             eq_refl HF).
Defined.

(** X15: when only the audit sink rejects the 'Send Message' record,
    [POST /messages/:id/send] answers 500 "Failed to send message"
    although the message has been dispatched and is persisted as 'sent'
    with its recipient count. *)
Theorem send_route_500_after_sending F req_user req_ip id w msg err :
  findMessage_error F = None →
  findGroup_error F = None →
  (∀ q, findUsers_error F q = None) →
  (∀ mo, sendMail_error F mo = None) →
  (∀ m, save_error F m = None) →
  messages w !! id = Some msg →
  log_error F (send_entry (acting_user req_user) req_ip msg
                 (length (audience w msg))) = Some err →
  ∃ w', post_messages_send F req_user req_ip id w
        = (Return (Failure 500 "Failed to send message"), w') ∧
        messages w' !! id
        = Some (mark_sent msg (clock w) (length (audience w msg))) ∧
        sentmail w' = sentmail w ++ transport_calls w msg (audience w msg).
Proof.
  intros HM HG HU HT HS Hmsg HL. eexists. unfold post_messages_send, try_catch.
  erewrite bind_Throw.
  2:{ rewrite (send_resolved _ _ _ _ _ msg) by done.
      erewrite bind_Return; [|by apply dispatch_transport_ok].
      apply (finish_audit_thrown _ _ _ _ _ _ _ err);
        rewrite ?after_dispatch_clock; done. }
  split; [reflexivity|]. simpl. rewrite after_dispatch_clock.
  split; [apply lookup_insert_eq|]. apply after_dispatch_sentmail.
Qed.

Lemma send_route_500_after_sending_witness :
  messages office !! "m4" = Some already_sent ∧
  ∃ w', post_messages_send audit_down (Some "root") "10.0.0.1" "m4" office
        = (Return (Failure 500 "Failed to send message"), w') ∧
        sentAt <$> messages w' !! "m4" = Some (Some 1000) ∧
        mail_to <$> sentmail w' = ["alice@example.com"].
Proof.
  split; [reflexivity|].
  destruct (send_route_500_after_sending audit_down (Some "root") "10.0.0.1" "m4"
              office already_sent "activitylogs unavailable"
              eq_refl eq_refl (λ _, eq_refl) (λ _, eq_refl) (λ _, eq_refl)
              eq_refl eq_refl)
    as (w' & Hs & Hm & Hmail).
  exists w'. split; [exact Hs|]. split; [by rewrite Hm|].
  rewrite Hmail. reflexivity.
Defined.

(** ** Creation, once more *)






(** ** Group membership *)

Lemma existsb_member (u : string) (ms : list GroupMember) :
  existsb (λ m, bool_decide (member_username m = u)) ms = true ↔
  u ∈ member_username <$> ms.
Proof.
  rewrite existsb_exists, list_elem_of_fmap. split.
  - intros (m & Hin & Hm). apply bool_decide_eq_true in Hm.
    exists m. split; [done|]. by apply list_elem_of_In.
  - intros (m & -> & Hin). exists m. split; [by apply list_elem_of_In|].
    by apply bool_decide_eq_true.
Qed.

Lemma with_members_same g : with_members (members g) g = g.
Proof. by destruct g. Qed.

Lemma with_group_same gid g w :
  usergroups w !! gid = Some g → usergroups (with_group gid g w) = usergroups w.
Proof. intros H. simpl. by apply insert_id. Qed.

(** What [POST /groups/:id/members] does, case by case. *)
Lemma post_group_members_run F GS req_user req_ip id u g w :
  u ≠ "" →
  findGroup_error F = None →
  usergroups w !! id = Some g →
  let g' := with_members
              (members g ++ [ {| member_username := u; joinedAt := clock w |} ]) g in
  ∃ w', post_group_members F GS req_user req_ip id (Some u) w
        = (Return (if decide (u ∈ member_username <$> members g)
                   then Failure 409 "User already in group"
                   else match GS g' with
                        | Some _ => Failure 500 "Failed to add member"
                        | None => Answer 200 g'
                        end), w') ∧
        usergroups w'
        = (if decide (u ∈ member_username <$> members g) then usergroups w
           else match GS g' with
                | Some _ => usergroups w
                | None => <[id := g']> (usergroups w)
                end).
Proof.
  intros Hu HG Hg g'. unfold post_group_members.
  assert (truthy_string (Some u) = Some u) as -> by (by destruct u).
  unfold try_catch, UserGroup_findById, UserGroup_save, logActivity, try_catch,
    ActivityLog_create, new_Date. rewrite HG.
  unfold mbind, Async_bind, mret, Async_ret, guard_fault, throw, modify, get_world;
    simpl. rewrite Hg.
  destruct (decide (u ∈ member_username <$> members g)) as [Hin|Hout].
  - apply existsb_member in Hin. rewrite Hin. by eexists.
  - assert (existsb (λ m, bool_decide (member_username m = u)) (members g) = false)
      as ->.
    { apply not_true_is_false. by rewrite existsb_member. }
    fold g'. destruct (GS g'); simpl; [by eexists|].
    match goal with
    | |- context [log_error F ?entry] => destruct (log_error F entry)
    end; simpl; by eexists.
Qed.

(** X18: [POST /groups/:id/members] keeps the usernames of a group's
    manual members free of duplicates: a username that is already a member
    is answered 409 and nothing is written; otherwise, when the group store
    accepts the write, the answer is 200 and the stored group has the old
    members followed by the new one, joined at the current time. Whether
    the audit sink answers plays no role. *)
Theorem add_member_keeps_usernames_unique F GS req_user req_ip id u g w :
  u ≠ "" →
  findGroup_error F = None →
  usergroups w !! id = Some g →
  NoDup (member_username <$> members g) →
  ∃ reply w' g',
    post_group_members F GS req_user req_ip id (Some u) w = (Return reply, w') ∧
    usergroups w' !! id = Some g' ∧
    NoDup (member_username <$> members g') ∧
    (∀ j, j ≠ id → usergroups w' !! j = usergroups w !! j) ∧
    (u ∈ member_username <$> members g →
     reply = Failure 409 "User already in group" ∧ usergroups w' = usergroups w) ∧
    (u ∉ member_username <$> members g → (∀ x, GS x = None) →
     reply = Answer 200 g' ∧
     members g' = members g ++ [ {| member_username := u; joinedAt := clock w |} ]).
Proof.
  intros Hu HG Hg Hnd.
  destruct (post_group_members_run F GS req_user req_ip id u g w Hu HG Hg)
    as (w' & Hrun & Hgroups).
  set (g1 := with_members
               (members g ++ [ {| member_username := u; joinedAt := clock w |} ]) g) in *.
  destruct (decide (u ∈ member_username <$> members g)) as [Hin|Hout].
  - exists (Failure 409 "User already in group"), w', g.
    rewrite Hgroups. split_and!; try done; by intros ?.
  - destruct (GS g1) eqn:HGS.
    + exists (Failure 500 "Failed to add member"), w', g.
      rewrite Hgroups. split_and!; try done;
        try (intros _ Hall; rewrite Hall in HGS; done).
    + exists (Answer 200 g1), w', g1. rewrite Hgroups.
      split; [done|]. split; [apply lookup_insert_eq|]. split.
      { simpl. rewrite fmap_app. apply NoDup_app. split; [done|]. split.
        - intros x Hx. simpl. rewrite list_elem_of_singleton. by intros ->.
        - simpl. apply NoDup_singleton. }
      split; [intros j Hj; by apply lookup_insert_ne|].
      split; [by intros ?|done].
Qed.

Lemma add_member_keeps_usernames_unique_witness :
  usergroups office !! "g1" = Some moderators ∧
  NoDup (member_username <$> members moderators) ∧
  ∃ w', post_group_members no_faults groups_up None "10.0.0.1" "g1" (Some "alice") office
        = (Return (Failure 409 "User already in group"), w') ∧
        usergroups w' = usergroups office.
Proof.
  assert (NoDup (member_username <$> members moderators)) as Hnd.
  { simpl. constructor; [apply not_elem_of_nil|constructor]. }
  split; [reflexivity|]. split; [exact Hnd|].
  destruct (add_member_keeps_usernames_unique no_faults groups_up None "10.0.0.1"
              "g1" "alice" moderators office)
    as (reply & w' & g' & Hrun & _ & _ & _ & Hdup & _);
    [discriminate|reflexivity|reflexivity|exact Hnd|].
  destruct Hdup as [-> Hsame]; [simpl; by left|].
  exists w'. split; [exact Hrun|exact Hsame].
Defined.

Lemma delete_group_member_run F GS req_user req_ip id u g w :
  findGroup_error F = None →
  (∀ x, GS x = None) →
  usergroups w !! id = Some g →
  let g' := with_members (filter (λ m, member_username m ≠ u) (members g)) g in
  ∃ w', delete_group_member F GS req_user req_ip id u w
        = (Return (Answer 200 g'), w') ∧
        usergroups w' = <[id := g']> (usergroups w).
Proof.
  intros HG HGS Hg g'. unfold delete_group_member.
  unfold try_catch, UserGroup_findById, UserGroup_save, logActivity, try_catch,
    ActivityLog_create. rewrite HG.
  unfold mbind, Async_bind, mret, Async_ret, guard_fault, throw, modify, get_world;
    simpl. rewrite Hg. fold g'. rewrite HGS. simpl.
  match goal with
  | |- context [log_error F ?entry] => destruct (log_error F entry)
  end; simpl; by eexists.
Qed.

Lemma filter_members_other (u : string) (ms : list GroupMember) :
  u ∉ member_username <$> ms →
  filter (λ m, member_username m ≠ u) ms = ms.
Proof.
  induction ms as [|m ms IH]; [done|]. simpl.
  rewrite not_elem_of_cons. intros [Hne Hout].
  rewrite filter_cons_True by done. f_equal. by apply IH.
Qed.

(** X19: with the group store answering, [DELETE
    /groups/:id/members/:username] answers 200 and stores the group
    without any member of that username, the other members kept in their
    order; removing a username that is not a member stores the group
    unchanged. *)
Theorem remove_member_removes_every_entry F GS req_user req_ip id u g w :
  findGroup_error F = None →
  (∀ x, GS x = None) →
  usergroups w !! id = Some g →
  ∃ w' g',
    delete_group_member F GS req_user req_ip id u w = (Return (Answer 200 g'), w') ∧
    usergroups w' !! id = Some g' ∧
    (u ∉ member_username <$> members g') ∧
    members g' = filter (λ m, member_username m ≠ u) (members g) ∧
    (∀ j, j ≠ id → usergroups w' !! j = usergroups w !! j) ∧
    (u ∉ member_username <$> members g → g' = g ∧ usergroups w' = usergroups w).
Proof.
  intros HG HGS Hg.
  destruct (delete_group_member_run F GS req_user req_ip id u g w HG HGS Hg)
    as (w' & Hrun & Hgroups).
  eexists w', _. split; [exact Hrun|]. rewrite Hgroups. split_and!.
  - apply lookup_insert_eq.
  - simpl. rewrite list_elem_of_fmap. intros (m & Hm & Hin).
    apply list_elem_of_filter in Hin as [Hne _]. done.
  - done.
  - intros j Hj. by apply lookup_insert_ne.
  - intros Hout. rewrite filter_members_other by done.
    rewrite with_members_same. split; [done|]. by apply insert_id.
Qed.

Lemma remove_member_removes_every_entry_witness :
  usergroups office !! "g1" = Some moderators ∧
  ∃ w' g',
    delete_group_member audit_down groups_up None "10.0.0.1" "g1" "alice" office
    = (Return (Answer 200 g'), w') ∧
    members g' = [].
Proof.
  split; [reflexivity|].
  destruct (remove_member_removes_every_entry audit_down groups_up None "10.0.0.1"
              "g1" "alice" moderators office eq_refl (λ _, eq_refl) eq_refl)
    as (w' & g' & Hrun & _ & _ & Hms & _).
  exists w', g'. split; [exact Hrun|]. rewrite Hms. reflexivity.
Defined.

(** X20: adding a username that is not yet a member and then removing it
    brings the group's manual members back to exactly the entries it had,
    in the same order, with the name, the filters and the active flag as
    before, and leaves every other group alone. *)
Theorem add_then_remove_member F GS req_user req_ip id u g w :
  u ≠ "" →
  findGroup_error F = None →
  (∀ x, GS x = None) →
  usergroups w !! id = Some g →
  u ∉ member_username <$> members g →
  let w1 := (post_group_members F GS req_user req_ip id (Some u) w).2 in
  let w2 := (delete_group_member F GS req_user req_ip id u w1).2 in
  (∃ g1, usergroups w1 !! id = Some g1 ∧ u ∈ member_username <$> members g1) ∧
  (∃ g2, usergroups w2 !! id = Some g2 ∧
         members g2 = members g ∧
         name g2 = name g ∧
         filters g2 = filters g ∧
         group_isActive g2 = group_isActive g) ∧
  ∀ j, j ≠ id → usergroups w2 !! j = usergroups w !! j.
Proof.
  intros Hu HG HGS Hg Hout w1 w2. subst w1 w2.
  destruct (post_group_members_run F GS req_user req_ip id u g w Hu HG Hg)
    as (w1 & Hrun1 & Hgroups1).
  rewrite decide_False in Hgroups1 by done. rewrite HGS in Hgroups1.
  rewrite Hrun1. simpl.
  set (g1 := with_members
               (members g ++ [ {| member_username := u; joinedAt := clock w |} ]) g) in *.
  assert (usergroups w1 !! id = Some g1) as Hg1
    by (rewrite Hgroups1; apply lookup_insert_eq).
  destruct (delete_group_member_run F GS req_user req_ip id u g1 w1 HG HGS Hg1)
    as (w2 & Hrun2 & Hgroups2).
  rewrite Hrun2. simpl. split; [|split].
  - exists g1. split; [done|]. simpl. rewrite fmap_app. set_solver.
  - eexists. rewrite Hgroups2. split; [apply lookup_insert_eq|].
    split; [|done]. simpl.
    rewrite filter_app, filter_members_other by done.
    rewrite filter_cons_False by (simpl; intros H; by apply H).
    by rewrite filter_nil, app_nil_r.
  - intros j Hj. rewrite Hgroups2, Hgroups1.
    by rewrite !lookup_insert_ne.
Qed.

Lemma add_then_remove_member_witness :
  usergroups office !! "g1" = Some moderators ∧
  ("carol" ∉ member_username <$> members moderators) ∧
  ∃ g2, usergroups
          (delete_group_member no_faults groups_up None "10.0.0.1" "g1" "carol"
             (post_group_members no_faults groups_up None "10.0.0.1" "g1" (Some "carol")
                office).2).2 !! "g1" = Some g2 ∧
        members g2 = members moderators.
Proof.
  assert ("carol" ∉ member_username <$> members moderators) as Hout.
  { simpl. rewrite list_elem_of_singleton. discriminate. }
  split; [reflexivity|]. split; [exact Hout|].
  destruct (add_then_remove_member no_faults groups_up None "10.0.0.1" "g1" "carol"
              moderators office) as (_ & (g2 & Hg2 & Hms & _) & _);
    [discriminate|reflexivity|done|reflexivity|exact Hout|].
  exists g2. split; [exact Hg2|exact Hms].
Defined.

(** ** The members preview and the audience *)

Lemma get_group_members_run F gid g w :
  findGroup_error F = None →
  (∀ q, findUsers_error F (ByFields q) = None) →
  usergroups w !! gid = Some g →
  get_group_members F gid w
  = (Return (Answer 200
               (Array_from_Set (group_part (query_test w) (adminusers w) g))), w).
Proof.
  intros HG HU Hg. unfold get_group_members, group_part.
  unfold try_catch, UserGroup_findById, AdminUser_find. rewrite HG.
  unfold mbind, Async_bind, mret, Async_ret, guard_fault, get_world; simpl.
  rewrite Hg.
  destruct (has_keys (filters g)) eqn:Hk.
  - destruct (has_keys (project_allowed (filters g))) eqn:Hq; simpl.
    + by rewrite HU.
    + by rewrite app_nil_r.
  - destruct (has_keys (project_allowed (filters g))) eqn:Hq; simpl.
    + apply has_keys_project in Hq. congruence.
    + by rewrite app_nil_r.
Qed.

(** X21: the list [GET /groups/:id/members] shows for a group is what a
    send resolves for a message that targets the group and names no
    explicit recipient; for a message with explicit recipients the
    resolved audience holds exactly those and the usernames of the
    preview. *)
Theorem members_preview_is_the_audience F gid g w :
  findGroup_error F = None →
  (∀ q, findUsers_error F (ByFields q) = None) →
  usergroups w !! gid = Some g →
  ∃ l, get_group_members F gid w = (Return (Answer 200 l), w) ∧
       ∀ msg, targetGroup msg = Some gid →
              ∃ a, resolve F msg (populate w msg) w = (Return a, w) ∧
                   (recipients msg = [] → a = l) ∧
                   ∀ u, u ∈ a ↔ u ∈ recipients msg ∨ u ∈ l.
Proof.
  intros HG HU Hg. eexists. split; [by apply get_group_members_run|].
  intros msg Htg. exists (audience w msg). split; [by apply resolve_ok|].
  unfold audience. rewrite (populate_present w msg gid g) by done. simpl.
  rewrite Hg. split.
  - by intros ->.
  - intros u. rewrite !Array_from_Set_elem, elem_of_app. done.
Qed.

Lemma members_preview_is_the_audience_witness :
  usergroups office !! "g1" = Some moderators ∧
  get_group_members no_faults "g1" office = (Return (Answer 200 ["alice"; "bob"]), office).
Proof.
  split; [reflexivity|].
  destruct (members_preview_is_the_audience no_faults "g1" moderators office
              eq_refl (λ _, eq_refl) eq_refl) as (l & Hrun & _).
  rewrite Hrun. vm_compute in Hrun. injection Hrun as <-. reflexivity.
Defined.

(** ** Deleting a group *)

Lemma send_unpopulated F id actor ip w msg :
  findMessage_error F = None →
  findGroup_error F = None →
  (∀ a, findUsers_error F (ByUsernames a) = None) →
  (∀ e, log_error F e = None) →
  (∀ m, save_error F m = None) →
  messages w !! id = Some msg →
  populate w msg = None →
  ∃ w', sendMessageById F id actor ip w
        = (Return (Some {| res_recipientsCount :=
                             length (Array_from_Set (recipients msg));
                           messageId := id |}), w') ∧
        messages w' !! id
        = Some (mark_sent msg (clock w) (length (Array_from_Set (recipients msg)))).
Proof.
  intros HM HG HU HL HS Hmsg Hp. eexists. unfold sendMessageById.
  erewrite bind_Return; [|by apply findById_found]. rewrite Hp.
  erewrite bind_Return; [|apply resolve_unpopulated].
  erewrite bind_Return; [|by apply dispatch_returns].
  rewrite finish_ok by done. rewrite after_dispatch_clock.
  split; [reflexivity|]. apply lookup_insert_eq.
Qed.

(** X22: [DELETE /groups/:id] on a stored group answers 200 whether or not
    the audit sink answers, removes the group and leaves the messages as
    they are; afterwards, with the message store, the group store, the
    address lookup and the audit sink answering, a send of a message that
    still targets the group reaches its deduplicated explicit recipients
    alone and is persisted as 'sent' with that count, even when the
    directory rejects every query by fields: none is made. *)
Theorem delete_group_leaves_dangling_targets F req_user req_ip gid g w :
  usergroups w !! gid = Some g →
  ∃ w', delete_group F None req_user req_ip gid w
        = (Return (Answer 200 "Group deleted"), w') ∧
        usergroups w' = delete gid (usergroups w) ∧
        messages w' = messages w ∧
        ∀ F' id msg actor ip,
          findMessage_error F' = None →
          findGroup_error F' = None →
          (∀ a, findUsers_error F' (ByUsernames a) = None) →
          (∀ e, log_error F' e = None) →
          (∀ m, save_error F' m = None) →
          messages w' !! id = Some msg →
          targetGroup msg = Some gid →
          ∃ w'', sendMessageById F' id actor ip w'
                 = (Return (Some {| res_recipientsCount :=
                                      length (Array_from_Set (recipients msg));
                                    messageId := id |}), w'') ∧
                 messages w'' !! id
                 = Some (mark_sent msg (clock w')
                           (length (Array_from_Set (recipients msg)))).
Proof.
  intros Hg. unfold delete_group, UserGroup_findByIdAndDelete.
  unfold try_catch, logActivity, try_catch, ActivityLog_create.
  unfold mbind, Async_bind, mret, Async_ret, guard_fault, throw, modify, get_world;
    simpl. rewrite Hg.
  match goal with
  | |- context [log_error F ?entry] => destruct (log_error F entry)
  end; simpl;
    (eexists; split; [reflexivity|]; simpl; split; [done|]; split; [done|];
     intros F' id msg actor ip HM HG HU HL HS Hmsg Htg;
     match goal with
     | |- context [sendMessageById F' id actor ip ?w1] =>
         apply (send_unpopulated F' id actor ip w1 msg HM HG HU HL HS Hmsg);
         apply (populate_missing w1 msg gid Htg); simpl; apply lookup_delete_eq
     end).
Qed.

Lemma delete_group_leaves_dangling_targets_witness :
  usergroups office !! "g1" = Some moderators ∧
  ∃ w', delete_group audit_down None None "10.0.0.1" "g1" office
        = (Return (Answer 200 "Group deleted"), w') ∧
        ∃ w'', sendMessageById directory_down "m1" "admin" "10.0.0.1" w'
               = (Return (Some {| res_recipientsCount := 1; messageId := "m1" |}), w'') ∧
               status <$> messages w'' !! "m1" = Some Sent.
Proof.
  split; [reflexivity|].
  destruct (delete_group_leaves_dangling_targets audit_down None "10.0.0.1" "g1"
              moderators office eq_refl) as (w' & Hrun & _ & Hmsgs & Hsend).
  exists w'. split; [exact Hrun|].
  destruct (Hsend directory_down "m1" to_moderators "admin" "10.0.0.1"
              eq_refl eq_refl (λ _, eq_refl) (λ _, eq_refl) (λ _, eq_refl))
    as (w'' & Hs & Hm); [by rewrite Hmsgs|reflexivity|].
  exists w''. split; [exact Hs|]. by rewrite Hm.
Defined.
